(** * sctools.count: construction, persistence and merging of count matrices

    A shallow embedding of [src/sctools/count.py] (class [CountMatrix]) and
    the properties of it that the specification states.

    Conventions of the embedding:
    - a Python exception is a value of [exn]; a call that may raise returns
      a [result];
    - the two dictionaries [gene_id_to_index] and [cell_id_to_index] are
      insertion-ordered association lists, because the code iterates their
      [items()] (module [PyDict]);
    - tag tables, attribute tables, matrix rows and the file system are
      finite maps ([gmap]);
    - [uint32] matrix values are integers reduced modulo [2^32]. *)

From stdpp Require Import base strings list gmap.
From Stdlib Require Import ZArith Ascii.

#[local] Set Warnings "-clear-no-such-hyp".

(** ** Exceptions *)

Inductive exn : Set :=
| KeyError
| ValueError
| IndexError
| TypeError
| FileNotFoundError.

Inductive result (A : Type) : Type :=
| Ok (a : A)
| Raise (e : exn).
Arguments Ok {A} a.
Arguments Raise {A} e.

#[global] Instance exn_eq_dec : EqDecision exn.
Proof. solve_decision. Defined.

#[global] Instance result_ret : MRet result := λ A a, Ok a.
#[global] Instance result_bind : MBind result := λ A B k m,
  match m with
  | Ok a => k a
  | Raise e => Raise e
  end.

(** ** Python dictionaries, in insertion order *)

Module PyDict.
Section dict.
Context {K V : Type} `{EqDecision K}.

(** [d.get(k)] *)
Fixpoint get (d : list (K * V)) (k : K) : option V :=
  match d with
  | [] => None
  | (k', v) :: d' => if decide (k = k') then Some v else get d' k
  end.

(** [d[k]], raising [KeyError] on a miss *)
Definition getitem (d : list (K * V)) (k : K) : result V :=
  match get d k with
  | Some v => Ok v
  | None => Raise KeyError
  end.

(** [d[k] = v]: an existing key keeps its position, a new key goes last *)
Fixpoint setitem (d : list (K * V)) (k : K) (v : V) : list (K * V) :=
  match d with
  | [] => [(k, v)]
  | (k', v') :: d' =>
      if decide (k = k') then (k, v) :: d' else (k', v') :: setitem d' k v
  end.

(** [len(d)] *)
Definition len (d : list (K * V)) : nat := length d.

(** [d.items()] *)
Definition items (d : list (K * V)) : list (K * V) := d.
End dict.
End PyDict.

(** [sorted(items, key=operator.itemgetter(1))] on items whose values are
    indices.  Python's sort is stable: items of equal value keep their
    order, so each item is placed before the first one that is not smaller. *)
Fixpoint insert_by_value {K : Type} (x : K * nat) (l : list (K * nat))
  : list (K * nat) :=
  match l with
  | [] => [x]
  | y :: l' => if decide (x.2 ≤ y.2) then x :: l else y :: insert_by_value x l'
  end.

Definition sorted_by_value {K : Type} (l : list (K * nat)) : list (K * nat) :=
  foldr insert_by_value [] l.

(** [[k for k, v in sorted(d.items(), key=operator.itemgetter(1))]] *)
Definition keys_by_value {K : Type} (d : list (K * nat)) : list K :=
  (sorted_by_value (PyDict.items d)).*1.

(** ** Annotation records *)

(** Modelled from the spec: a feature record as the annotation reader
    [sctools.gtf.Reader] yields it, whose source is not available: a
    feature-type field and a table of key-value attributes. *)
Record gtf_record : Type := GtfRecord {
  feature_type : string;
  attributes : gmap string string
}.

(** Modelled from the spec: [Reader.filter(retain_types=...)], which keeps,
    in feed order, the records whose feature type is one of
    [retain_types]. *)
Definition gtf_filter (retain_types : list string) (feed : list gtf_record)
  : list gtf_record :=
  filter (λ r, feature_type r ∈ retain_types) feed.

(** Modelled from the spec: [record.get_attribute(key)], the attribute
    lookup, which answers [None] for an absent attribute. *)
Definition get_attribute (record : gtf_record) (key : string) : option string :=
  attributes record !! key.

(** ** Alignment records (the part of [pysam.AlignedSegment] that is used) *)

Record sam_record : Type := SamRecord {
  tags : gmap string string;
  mapping_quality : Z
}.

(** [sam_record.get_tag(tag)], raising [KeyError] when the tag is absent *)
Definition get_tag (r : sam_record) (tag : string) : result string :=
  match tags r !! tag with
  | Some v => Ok v
  | None => Raise KeyError
  end.

(** ** Sparse matrices (the part of [scipy.sparse] that is used) *)

(** a value of dtype [np.uint32] *)
Definition uint32 (z : Z) : Z := (z mod 2 ^ 32)%Z.

(** Coordinate format: parallel arrays of row indices, column indices and
    values, with a declared shape. *)
Record coo_matrix : Type := CooMatrix {
  coo_shape : nat * nat;
  coo_row : list nat;
  coo_col : list nat;
  coo_data : list Z
}.

(** [sp.coo_matrix((data, (row, col)), shape=shape, dtype=np.uint32)]:
    the three arrays must have one length and every index must lie inside
    the shape, otherwise [ValueError]. *)
Definition coo_matrix_new (data : list Z) (row col : list nat)
    (shape : nat * nat) : result coo_matrix :=
  if decide (length row = length data ∧ length col = length data) then
    if decide (Forall (λ i, i < shape.1) row ∧ Forall (λ j, j < shape.2) col)
    then Ok (CooMatrix shape row col (uint32 <$> data))
    else Raise ValueError
  else Raise ValueError.

(** Compressed sparse row format, row by row: each row maps the columns it
    stores to their values. *)
Record csr_matrix : Type := CsrMatrix {
  csr_cols : nat;
  csr_rows : list (gmap nat Z)
}.

Definition csr_shape (m : csr_matrix) : nat * nat :=
  (length (csr_rows m), csr_cols m).

(** [m[i, j]] *)
Definition csr_get (m : csr_matrix) (i j : nat) : Z :=
  default 0%Z (csr_rows m !! i ≫= (.!! j)).

Definition coo_entries (m : coo_matrix) : list (nat * nat * Z) :=
  zip (zip (coo_row m) (coo_col m)) (coo_data m).

(** the compressed row [r]: entries of that row, duplicates summed *)
Definition sum_row (entries : list (nat * nat * Z)) (r : nat) : gmap nat Z :=
  foldl (λ acc e,
           if decide (e.1.1 = r)
           then <[e.1.2 := uint32 (default 0%Z (acc !! e.1.2) + e.2)]> acc
           else acc)
        ∅ entries.

(** [coo.tocsr()] *)
Definition tocsr (m : coo_matrix) : csr_matrix :=
  CsrMatrix (coo_shape m).2 (sum_row (coo_entries m) <$> seq 0 (coo_shape m).1).

(** a value of dtype [np.intp] (64-bit signed), the dtype [mmread] gives
    an integer matrix *)
Definition intp (z : Z) : Z := ((z + 2 ^ 63) mod 2 ^ 64 - 2 ^ 63)%Z.

(** the compressed row [r] of a matrix whose dtype reduces sums by [dtype] *)
Definition sum_row_as (dtype : Z → Z) (entries : list (nat * nat * Z))
    (r : nat) : gmap nat Z :=
  foldl (λ acc e,
           if decide (e.1.1 = r)
           then <[e.1.2 := dtype (default 0%Z (acc !! e.1.2) + e.2)%Z]> acc
           else acc)
        ∅ entries.

(** [coo.tocsr()] for a matrix of that dtype *)
Definition tocsr_as (dtype : Z → Z) (m : coo_matrix) : csr_matrix :=
  CsrMatrix (coo_shape m).2
    (sum_row_as dtype (coo_entries m) <$> seq 0 (coo_shape m).1).

(** [sp.vstack(blocks, format='csr')]: at least one block, all of one
    width, otherwise [ValueError]. *)
Definition vstack (blocks : list csr_matrix) : result csr_matrix :=
  match blocks with
  | [] => Raise ValueError
  | b :: bs =>
      if decide (Forall (λ b', csr_cols b' = csr_cols b) bs)
      then Ok (CsrMatrix (csr_cols b) (concat (csr_rows <$> blocks)))
      else Raise ValueError
  end.

(** ** The class [CountMatrix] *)

Record CountMatrix : Type := mkCountMatrix {
  matrix : csr_matrix;
  row_index : list string;
  col_index : list string
}.

(** *** [from_bam]: the gene index *)

(** The loop over [enumerate(gtf_reader.filter(retain_types=['gene']))],
    started at [gene_index] with the dictionary [gene_id_to_index]. *)
Fixpoint gene_index_loop (gene_index : nat) (records : list gtf_record)
    (gene_id_to_index : list (string * nat)) : result (list (string * nat)) :=
  match records with
  | [] => Ok gene_id_to_index
  | record :: rest =>
      match get_attribute record "gene_name" with
      | None => Raise ValueError
      | Some gene_id =>
          gene_index_loop (S gene_index) rest
            (PyDict.setitem gene_id_to_index gene_id gene_index)
      end
  end.

Definition build_gene_index (annotation : list gtf_record)
  : result (list (string * nat)) :=
  gene_index_loop 0 (gtf_filter ["gene"] annotation) [].

(** *** [from_bam]: the scan of the alignment records *)

Definition molecule_key : Type := string * string * string.

(** The local variables of [from_bam] that the loop over the alignment
    file updates.  [current_molecule] starts as the empty tuple, which
    equals no triple: [None]. *)
Record scan_state : Type := ScanState {
  data : list Z;
  cell_indices : list nat;
  gene_indices : list nat;
  n_cells : nat;
  cell_id_to_index : list (string * nat);
  current_molecule : option molecule_key
}.

Definition scan_init : scan_state := ScanState [] [] [] 0 [] None.

Section scan.
Variable gene_id_to_index : list (string * nat).
Variables cell_barcode_tag molecule_barcode_tag gene_id_tag : string.
Variable mapq_threshold : Z.

(** The three [get_tag] calls of the [try] block, in source order. *)
Definition read_key (sam_record : sam_record) : result molecule_key :=
  gene ← get_tag sam_record gene_id_tag;
  cell ← get_tag sam_record cell_barcode_tag;
  molecule ← get_tag sam_record molecule_barcode_tag;
  Ok (gene, cell, molecule).

(** The end of an iteration, reached by a record that is not dropped:
    find the indices of the molecule, record it, make it current. *)
Definition record_molecule (s : scan_state) (key : molecule_key)
  : result scan_state :=
  let '(gene, cell, molecule) := key in
  gene_index ← PyDict.getitem gene_id_to_index gene;
  let '(cell_index, cells, n) :=
    match PyDict.get (cell_id_to_index s) cell with
    | Some i => (i, cell_id_to_index s, n_cells s)
    | None =>
        (n_cells s,
         PyDict.setitem (cell_id_to_index s) cell (n_cells s),
         n_cells s + 1)
    end in
  Ok (ScanState (data s ++ [1%Z])
                (cell_indices s ++ [cell_index])
                (gene_indices s ++ [gene_index])
                n cells (Some (gene, cell, molecule))).

(** One iteration of [for sam_record in f]: a record that lacks a tag, is
    below the mapping-quality threshold or repeats the current molecule
    is passed over with [continue]. *)
Definition scan_record (s : scan_state) (sam_record : sam_record)
  : result scan_state :=
  match read_key sam_record with
  | Raise KeyError => Ok s
  | Raise e => Raise e
  | Ok key =>
      if decide (mapping_quality sam_record < mapq_threshold)%Z then Ok s
      else if decide (current_molecule s = Some key) then Ok s
      else record_molecule s key
  end.

Fixpoint scan (s : scan_state) (f : list sam_record) : result scan_state :=
  match f with
  | [] => Ok s
  | sam_record :: rest => s' ← scan_record s sam_record; scan s' rest
  end.
End scan.

(** *** [from_bam] *)

Definition from_bam (bam_file : list sam_record)
    (annotation_file : list gtf_record)
    (cell_barcode_tag molecule_barcode_tag gene_id_tag : string)
    (mapq_threshold : Z) : result CountMatrix :=
  gene_id_to_index ← build_gene_index annotation_file;
  s ← scan gene_id_to_index cell_barcode_tag molecule_barcode_tag gene_id_tag
         mapq_threshold scan_init bam_file;
  let gene_number := PyDict.len gene_id_to_index in
  let cell_number := length (cell_indices s) in
  let shape := (cell_number, gene_number) in
  coordinate_matrix ←
    coo_matrix_new (data s) (cell_indices s) (gene_indices s) shape;
  let col_iterable := keys_by_value gene_id_to_index in
  let row_iterable := keys_by_value (cell_id_to_index s) in
  Ok (mkCountMatrix (tocsr coordinate_matrix) row_iterable col_iterable).

(** ** Files *)

(** What a path holds.  The [.npy] and [.npz] containers and Matrix Market
    text are written and parsed by numpy and scipy; a file in one of these
    formats is represented by the value those libraries read back from it
    (for Matrix Market, an integer matrix in coordinate format).  Label
    files are plain text.

    A file system maps a path, the string that the program hands to the
    operating system, to what it holds.  Two spellings of one path are two
    keys here, and a write always succeeds: what is proved below concerns
    artifacts read back under the path strings they were written with, on
    a file system in which the writes go through. *)
Inductive file : Type :=
| NpzFile (m : csr_matrix)
| NpyFile (a : list string)
| MtxFile (m : coo_matrix)
| TextFile (content : string).

(** [np.save(path, a)] *)
Definition np_save (path : string) (a : list string)
    (fs : gmap string file) : gmap string file :=
  <[path := NpyFile a]> fs.

(** [np.load(path)] *)
Definition np_load (fs : gmap string file) (path : string)
  : result (list string) :=
  match fs !! path with
  | Some (NpyFile a) => Ok a
  | Some _ => Raise ValueError
  | None => Raise FileNotFoundError
  end.

(** [sp.save_npz(path, m, compressed=True)] *)
Definition save_npz (path : string) (m : csr_matrix)
    (fs : gmap string file) : gmap string file :=
  <[path := NpzFile m]> fs.

(** [sp.load_npz(path)]: an array file where the archive is expected is
    read by [np.load] as an array, which [load_npz] cannot enter
    ([TypeError]); other content is refused by [np.load] ([ValueError]). *)
Definition load_npz (fs : gmap string file) (path : string)
  : result csr_matrix :=
  match fs !! path with
  | Some (NpzFile m) => Ok m
  | Some (NpyFile _) => Raise TypeError
  | Some _ => Raise ValueError
  | None => Raise FileNotFoundError
  end.

(** [scipy.io.mmread(path)] *)
Definition mmread (fs : gmap string file) (path : string)
  : result coo_matrix :=
  match fs !! path with
  | Some (MtxFile m) => Ok m
  | Some _ => Raise ValueError
  | None => Raise FileNotFoundError
  end.

Definition LF : ascii := "010"%char.
Definition CR : ascii := "013"%char.

(** Text mode [open(path, 'r')] reads with universal newlines: a carriage
    return, alone or followed by a line feed, arrives as one line feed. *)
Fixpoint universal_newlines (s : string) : string :=
  match s with
  | EmptyString => EmptyString
  | String c s' =>
      if decide (c = CR) then
        String LF
          match s' with
          | EmptyString => EmptyString
          | String c' s'' =>
              if decide (c' = LF) then universal_newlines s''
              else universal_newlines s'
          end
      else String c (universal_newlines s')
  end.

(** [fin.readlines()]: the text cut after each line feed; every piece keeps
    its line feed, a last piece without one is kept when it is not empty. *)
Fixpoint readlines (s : string) : list string :=
  match s with
  | EmptyString => []
  | String c s' =>
      if decide (c = LF) then String c EmptyString :: readlines s'
      else match readlines s' with
           | [] => [String c EmptyString]
           | line :: lines => String c line :: lines
           end
  end.

Definition NUL : ascii := "000"%char.

(** An element of a numpy array of strings: the fixed-width unicode dtype
    pads with NUL and so does not keep the NULs a string ends with. *)
Fixpoint strip_trailing_nuls (s : string) : string :=
  match s with
  | EmptyString => EmptyString
  | String c s' =>
      match strip_trailing_nuls s' with
      | EmptyString =>
          if decide (c = NUL) then EmptyString else String c EmptyString
      | String c' t => String c (String c' t)
      end
  end.

(** [np.array(lines)] for the lines of a text file *)
Definition np_array (lines : list string) : list string :=
  strip_trailing_nuls <$> lines.

(** [with open(path, 'r') as fin: np.array(fin.readlines())] *)
Definition read_index_file (fs : gmap string file) (path : string)
  : result (list string) :=
  match fs !! path with
  | Some (TextFile content) =>
      Ok (np_array (readlines (universal_newlines content)))
  | Some _ => Raise ValueError
  | None => Raise FileNotFoundError
  end.

(** *** [save], [load], [merge_matrices], [from_mtx] *)

Definition save (self : CountMatrix) (prefix : string)
    (fs : gmap string file) : gmap string file :=
  np_save (prefix +:+ "_col_index.npy") (col_index self)
    (np_save (prefix +:+ "_row_index.npy") (row_index self)
       (save_npz (prefix +:+ ".npz") (matrix self) fs)).

Definition load (fs : gmap string file) (prefix : string)
  : result CountMatrix :=
  matrix ← load_npz fs (prefix +:+ ".npz");
  row_index ← np_load fs (prefix +:+ "_row_index.npy");
  col_index ← np_load fs (prefix +:+ "_col_index.npy");
  Ok (mkCountMatrix matrix row_index col_index).

Definition merge_matrices (fs : gmap string file)
    (input_prefixes : list string) : result CountMatrix :=
  col_indices ← mapM (λ p, np_load fs (p +:+ "_col_index.npy")) input_prefixes;
  row_indices ← mapM (λ p, np_load fs (p +:+ "_row_index.npy")) input_prefixes;
  matrices ← mapM (λ p, load_npz fs (p +:+ ".npz")) input_prefixes;
  matrix ← vstack matrices;
  col_index ← match col_indices with
              | [] => Raise IndexError
              | c :: _ => Ok c
              end;
  Ok (mkCountMatrix matrix (concat row_indices) col_index).

Definition from_mtx (fs : gmap string file)
    (matrix_mtx row_index_file col_index_file : string) : result CountMatrix :=
  coo ← mmread fs matrix_mtx;
  row_index ← read_index_file fs row_index_file;
  col_index ← read_index_file fs col_index_file;
  Ok (mkCountMatrix (tocsr_as intp coo) row_index col_index).

(** ** Vocabulary of the specification *)

(** A mapping from its keys to indices is a bijection onto [[0, n)]. *)
Definition bijective_onto (idx : list (string * nat)) (n : nat) : Prop :=
  (∀ g i, PyDict.get idx g = Some i → i < n) ∧
  (∀ g g' i, PyDict.get idx g = Some i → PyDict.get idx g' = Some i → g = g') ∧
  (∀ i, i < n → ∃ g, PyDict.get idx g = Some i).

(** The gene names of an annotation feed, in scan order. *)
Definition gene_names (annotation : list gtf_record) : list string :=
  omap (λ r, get_attribute r "gene_name") (gtf_filter ["gene"] annotation).

(** The distinct elements of a list, in order of first occurrence. *)
Definition first_seen_from (seen : list string) (l : list string)
  : list string :=
  foldl (λ acc c, if decide (c ∈ acc) then acc else acc ++ [c]) seen l.

Definition first_seen (l : list string) : list string := first_seen_from [] l.
#[global] Arguments first_seen_from : simpl never.

Definition key_gene (k : molecule_key) : string := k.1.1.
Definition key_cell (k : molecule_key) : string := k.1.2.

Section counted.
Variables cell_barcode_tag molecule_barcode_tag gene_id_tag : string.
Variable mapq_threshold : Z.

(** A valid record is tag-complete and not below the mapping-quality
    threshold; it then has a molecule key. *)
Definition valid_key (r : sam_record) : option molecule_key :=
  gene ← tags r !! gene_id_tag;
  cell ← tags r !! cell_barcode_tag;
  molecule ← tags r !! molecule_barcode_tag;
  if decide (mapping_quality r < mapq_threshold)%Z then None
  else Some (gene, cell, molecule).

(** The molecules a stream counts: the keys of its valid records, a key
    that repeats the last counted one being collapsed into it. *)
Fixpoint counted (last : option molecule_key) (f : list sam_record)
  : list molecule_key :=
  match f with
  | [] => []
  | r :: rest =>
      match valid_key r with
      | Some k =>
          if decide (last = Some k) then counted last rest
          else k :: counted (Some k) rest
      | None => counted last rest
      end
  end.
End counted.

(** Recording a sequence of molecules, one after the other. *)
Fixpoint record_all (gene_id_to_index : list (string * nat))
    (s : scan_state) (keys : list molecule_key) : result scan_state :=
  match keys with
  | [] => Ok s
  | k :: rest =>
      s' ← record_molecule gene_id_to_index s k;
      record_all gene_id_to_index s' rest
  end.

(** The cell dictionary numbers [labels] from zero, in order, and
    [n_cells] is their number. *)
Definition cells_numbered (s : scan_state) (labels : list string) : Prop :=
  cell_id_to_index s = zip labels (seq 0 (length labels)) ∧
  n_cells s = length labels ∧
  NoDup labels.

(** The molecule that is current after a stream has been scanned. *)
Definition current_after (cb ub ge : string) (thr : Z)
    (last_key : option molecule_key) (f : list sam_record)
  : option molecule_key :=
  default last_key (Some <$> last (counted cb ub ge thr last_key f)).

(** How many times a molecule key was counted. *)
Definition occurrences (key : molecule_key) (keys : list molecule_key) : nat :=
  length (filter (λ k, k = key) keys).

(** The number of coordinate entries at [(i, j)]; their values are summed
    when the matrix is compressed. *)
Definition entries_at (rows cols : list nat) (i j : nat) : nat :=
  length (filter (λ e, e = (i, j)) (zip rows cols)).

(** The sum of the values of the coordinate entries at [(i, j)]. *)
Definition entries_total (entries : list (nat * nat * Z)) (i j : nat) : Z :=
  foldr (λ e acc, if decide (e.1 = (i, j)) then (e.2 + acc)%Z else acc)
        0%Z entries.

(** A string without line feed, and a line that ends with the only line
    feed it has. *)
Fixpoint newline_free (s : string) : Prop :=
  match s with
  | EmptyString => True
  | String c s' => c ≠ LF ∧ newline_free s'
  end.

Definition terminated (line : string) : Prop :=
  ∃ body, line = body +:+ String LF EmptyString ∧ newline_free body.

(** ** Inputs used in examples *)

Definition gene_record (name : string) : gtf_record :=
  GtfRecord "gene" {[ "gene_name" := name ]}.

Definition tagged (gene cell molecule : string) (mapq : Z) : sam_record :=
  SamRecord {[ "GE" := gene; "CB" := cell; "UB" := molecule ]} mapq.

(** The concrete scenario of the specification. *)
Definition scenario_annotation : list gtf_record :=
  [gene_record "GeneA"; gene_record "GeneB"].

(** Two matrices over the genes of the scenario, of two and three rows,
    and a file system that holds them under the prefixes [a] and [b]. *)
Definition two_rows : CountMatrix :=
  mkCountMatrix (CsrMatrix 2 [{[ 0 := 1%Z ]}; {[ 1 := 2%Z ]}])
    ["CellX"; "CellY"] ["GeneA"; "GeneB"].

Definition three_rows : CountMatrix :=
  mkCountMatrix (CsrMatrix 2 [∅; {[ 0 := 4%Z; 1 := 1%Z ]}; {[ 0 := 1%Z ]}])
    ["CellP"; "CellQ"; "CellR"] ["GeneA"; "GeneB"].

Definition two_shards : gmap string file :=
  save three_rows "b" (save two_rows "a" ∅).

(** The scenario as Matrix Market and label files; the file of row labels
    does not end with a line feed. *)
Definition scenario_files : gmap string file :=
  {[ "counts.mtx" := MtxFile (CooMatrix (2, 2) [0; 0; 1] [0; 1; 0] [1; 1; 1]%Z);
     "rows.txt" := TextFile ("CellX" +:+ String LF "CellY");
     "cols.txt" := TextFile ("GeneA" +:+ String LF ("GeneB" +:+ String LF "")) ]}.

Definition scenario_stream : list sam_record :=
  [tagged "GeneA" "CellX" "Mol1" 0; tagged "GeneA" "CellX" "Mol1" 0;
   tagged "GeneB" "CellX" "Mol2" 0; tagged "GeneA" "CellY" "Mol3" 0].

(** ** Further vocabulary *)

(** [i] is the position of the last occurrence of [g] in [names]. *)
Definition last_position (names : list string) (g : string) (i : nat) : Prop :=
  names !! i = Some g ∧ ∀ j, i < j → names !! j ≠ Some g.

(** The number of counted molecules of the cell labelled [i] and of the
    gene of column [j]. *)
Definition molecules_at (labels : list string) (idx : list (string * nat))
    (keys : list molecule_key) (i j : nat) : nat :=
  length (filter (λ k, labels !! i = Some (key_cell k) ∧
                       PyDict.get idx (key_gene k) = Some j) keys).

(** A string without carriage return. *)
Fixpoint return_free (s : string) : Prop :=
  match s with
  | EmptyString => True
  | String c s' => c ≠ CR ∧ return_free s'
  end.

(** A string without NUL. *)
Fixpoint nul_free (s : string) : Prop :=
  match s with
  | EmptyString => True
  | String c s' => c ≠ NUL ∧ nul_free s'
  end.

(** A text whose last character ends a line: a line feed or a carriage
    return. *)
Definition ends_with_line_end (content : string) : Prop :=
  ∃ body e, content = body +:+ String e EmptyString ∧ (e = LF ∨ e = CR).

(** The matrix that stacks the rows of [A] on those of [B], with the
    column labels of [A]. *)
Definition stacked (A B : CountMatrix) : CountMatrix :=
  mkCountMatrix
    (CsrMatrix (csr_cols (matrix A))
       (csr_rows (matrix A) ++ csr_rows (matrix B)))
    (row_index A ++ row_index B) (col_index A).

(** * Properties *)

(** ** Dictionaries *)

Section dict_facts.
Context {K V : Type} `{EqDecision K}.
Implicit Types (d : list (K * V)) (k : K) (v : V).

Lemma get_None d k : PyDict.get d k = None ↔ k ∉ d.*1.
Proof.
  induction d as [|[k' v'] d IH]; simpl.
  - split; [intros _; apply not_elem_of_nil | done].
  - rewrite not_elem_of_cons. case_decide; subst.
    + split; [done | intros [? _]; done].
    + rewrite IH. tauto.
Qed.

Lemma get_Some_elem_of d k v : PyDict.get d k = Some v → (k, v) ∈ d.
Proof.
  induction d as [|[k' v'] d IH]; simpl; [done|].
  case_decide; subst.
  - intros [= ->]. left.
  - intros ?. right. auto.
Qed.

Lemma get_app d1 d2 k :
  PyDict.get (d1 ++ d2) k =
    match PyDict.get d1 k with
    | Some v => Some v
    | None => PyDict.get d2 k
    end.
Proof.
  induction d1 as [|[k' v'] d1 IH]; simpl; [done|].
  by case_decide.
Qed.

Lemma setitem_fresh d k v :
  PyDict.get d k = None → PyDict.setitem d k v = d ++ [(k, v)].
Proof.
  induction d as [|[k' v'] d IH]; simpl; [done|].
  case_decide; [done|]. intros ?. f_equal. auto.
Qed.

Lemma get_setitem d k v k' :
  PyDict.get (PyDict.setitem d k v) k' =
    if decide (k' = k) then Some v else PyDict.get d k'.
Proof.
  induction d as [|[k0 v0] d IH]; simpl.
  - by case_decide.
  - destruct (decide (k = k0)) as [->|Hne]; simpl.
    + repeat case_decide; congruence.
    + rewrite IH. repeat case_decide; congruence.
Qed.
End dict_facts.

(** A dictionary that numbers [names] from [i] on, in order. *)
Lemma get_zip_seq (names : list string) (i : nat) g j :
  NoDup names →
  PyDict.get (zip names (seq i (length names))) g = Some j ↔
  i ≤ j ∧ names !! (j - i) = Some g.
Proof.
  revert i. induction names as [|g0 names IH]; intros i Hnd; simpl.
  - split; [done | intros [_ ?]; done].
  - apply NoDup_cons in Hnd as [Hg0 Hnd]. case_decide; subst.
    + split.
      * intros [= ->]. split; [lia|]. by replace (j - j) with 0 by lia.
      * intros [Hle Hl]. destruct (j - i) as [|n] eqn:E; simpl in Hl.
        -- f_equal. lia.
        -- apply list_elem_of_lookup_2 in Hl. done.
    + rewrite IH by done. split.
      * intros [Hle Hl]. split; [lia|].
        replace (j - i) with (S (j - S i)) by lia. done.
      * intros [Hle Hl]. destruct (j - i) as [|n] eqn:E; simpl in Hl.
        -- congruence.
        -- split; [lia|]. by replace (j - S i) with n by lia.
Qed.

Lemma zip_seq_keys (names : list string) (i : nat) :
  (zip names (seq i (length names))).*1 = names.
Proof. apply fst_zip. by rewrite length_seq. Qed.

Lemma zip_seq_snoc (names : list string) (i : nat) (g : string) :
  zip (names ++ [g]) (seq i (length (names ++ [g]))) =
  zip names (seq i (length names)) ++ [(g, i + length names)].
Proof.
  rewrite length_app, seq_app. simpl.
  rewrite zip_with_app by (by rewrite length_seq). done.
Qed.

(** ** Sorting by value *)

Lemma sorted_by_value_zip_seq (names : list string) (i : nat) :
  sorted_by_value (zip names (seq i (length names))) =
  zip names (seq i (length names)).
Proof.
  revert i. induction names as [|g names IH]; intros i; [done|].
  simpl. rewrite IH.
  destruct names as [|g' names]; simpl; [done|].
  case_decide as Hle; [done|]. simpl in Hle. lia.
Qed.

Lemma keys_by_value_zip_seq (names : list string) (i : nat) :
  keys_by_value (zip names (seq i (length names))) = names.
Proof.
  unfold keys_by_value, PyDict.items.
  by rewrite sorted_by_value_zip_seq, zip_seq_keys.
Qed.

Lemma insert_by_value_length {K} (x : K * nat) l :
  length (insert_by_value x l) = S (length l).
Proof.
  induction l as [|y l IH]; simpl; [done|].
  case_decide; simpl; [done|]. by rewrite IH.
Qed.

Lemma keys_by_value_length {K} (d : list (K * nat)) :
  length (keys_by_value d) = PyDict.len d.
Proof.
  unfold keys_by_value, PyDict.items, PyDict.len. rewrite length_fmap.
  induction d as [|x d IH]; simpl; [done|].
  by rewrite insert_by_value_length, IH.
Qed.

(** ** The gene index *)

Lemma gene_index_loop_fresh records : ∀ names i d,
  Forall2 (λ r g, get_attribute r "gene_name" = Some g) records names →
  NoDup (d.*1 ++ names) →
  gene_index_loop i records d = Ok (d ++ zip names (seq i (length names))).
Proof.
  induction records as [|r records IH]; intros names i d Hnames Hnd.
  - apply Forall2_nil_inv_l in Hnames as ->. simpl. by rewrite app_nil_r.
  - apply Forall2_cons_inv_l in Hnames as (g & names' & Hg & Hrest & ->).
    simpl. rewrite Hg.
    assert (PyDict.get d g = None) as Hfresh.
    { apply get_None. apply NoDup_app in Hnd as (_ & Hdisj & _).
      intros Hin. apply (Hdisj g Hin). left. }
    rewrite (setitem_fresh _ _ _ Hfresh).
    rewrite (IH names' (S i) (d ++ [(g, i)]) Hrest).
    + by rewrite <- app_assoc.
    + by rewrite fmap_app, <- app_assoc.
Qed.

Lemma gene_names_Forall2 annotation :
  Forall (λ r, is_Some (get_attribute r "gene_name"))
         (gtf_filter ["gene"] annotation) →
  Forall2 (λ r g, get_attribute r "gene_name" = Some g)
          (gtf_filter ["gene"] annotation) (gene_names annotation).
Proof.
  unfold gene_names. generalize (gtf_filter ["gene"] annotation) as rs.
  induction 1 as [|r rs [g Hg] _ IH]; simpl; [constructor|].
  rewrite Hg. simpl. by constructor.
Qed.

Lemma build_gene_index_distinct annotation :
  Forall (λ r, is_Some (get_attribute r "gene_name"))
         (gtf_filter ["gene"] annotation) →
  NoDup (gene_names annotation) →
  build_gene_index annotation =
    Ok (zip (gene_names annotation) (seq 0 (length (gene_names annotation)))).
Proof.
  intros Hall Hnd. unfold build_gene_index.
  by rewrite (gene_index_loop_fresh _ (gene_names annotation) 0 [])
    by auto using gene_names_Forall2.
Qed.

Lemma zip_seq_bijective (names : list string) :
  NoDup names →
  bijective_onto (zip names (seq 0 (length names))) (length names).
Proof.
  intros Hnd. repeat split.
  - intros g i [_ Hi]%get_zip_seq; [|done].
    apply lookup_lt_Some in Hi. lia.
  - intros g g' i [_ Hg]%get_zip_seq [_ Hg']%get_zip_seq; congruence.
  - intros i Hi. destruct (lookup_lt_is_Some_2 names i Hi) as [g Hg].
    exists g. apply get_zip_seq; [done|].
    split; [lia|]. by rewrite Nat.sub_0_r.
Qed.

(** When the records of type gene all carry a [gene_name] and the names
    are pairwise distinct, the gene index is built, gives the [i]-th gene
    of the annotation scan the index [i], has as many entries as there are
    genes, and is a bijection onto [[0, num_genes)] for [num_genes] the
    size of the mapping. *)
Lemma gene_index_bijective_distinct (annotation : list gtf_record) :
  Forall (λ r, is_Some (get_attribute r "gene_name"))
         (gtf_filter ["gene"] annotation) →
  NoDup (gene_names annotation) →
  ∃ idx, build_gene_index annotation = Ok idx ∧
    (∀ g i, PyDict.get idx g = Some i ↔ gene_names annotation !! i = Some g) ∧
    PyDict.len idx = length (gene_names annotation) ∧
    bijective_onto idx (PyDict.len idx).
Proof.
  intros Hall Hnd. eexists. split; [by apply build_gene_index_distinct|].
  assert (PyDict.len (zip (gene_names annotation)
            (seq 0 (length (gene_names annotation))))
          = length (gene_names annotation)) as Hlen.
  { unfold PyDict.len. rewrite length_zip_with, length_seq. lia. }
  split; [|split; [done|]].
  - intros g i. rewrite get_zip_seq by done. rewrite Nat.sub_0_r.
    split; [by intros [_ ?] | intros ?; split; [lia | done]].
  - rewrite Hlen. by apply zip_seq_bijective.
Qed.

Lemma gene_index_bijective_scenario :
  ∃ idx, build_gene_index scenario_annotation = Ok idx ∧
    (∀ g i, PyDict.get idx g = Some i ↔
            gene_names scenario_annotation !! i = Some g) ∧
    PyDict.len idx = length (gene_names scenario_annotation) ∧
    bijective_onto idx (PyDict.len idx).
Proof.
  apply (gene_index_bijective_distinct scenario_annotation).
  - repeat constructor; by eexists.
  - apply (bool_decide_unpack _). vm_compute. exact I.
Qed.

(** C2 at an annotation in which two records of type gene share a name:
    the later record overwrites the index of the earlier one while the
    enumeration goes on, so the mapping keeps two entries whose indices
    are 1 and 2; it is not a bijection onto [[0, 2)].  The size of the
    mapping is then taken for the number of columns, and a molecule of
    gene [A] has its column index 2 refused by the matrix constructor. *)
Theorem duplicate_gene_name_breaks_index :
  let annotation := [gene_record "A"; gene_record "B"; gene_record "A"] in
  ∃ idx,
    build_gene_index annotation = Ok idx ∧
    idx = [("A", 2); ("B", 1)] ∧
    PyDict.len idx = 2 ∧
    ¬ bijective_onto idx (PyDict.len idx) ∧
    from_bam [tagged "A" "CellX" "Mol1" 0] annotation "CB" "UB" "GE" 0
      = Raise ValueError.
Proof.
  eexists. split; [vm_compute; reflexivity|].
  split_and!; [reflexivity | reflexivity | | vm_compute; reflexivity].
  intros (Hlt & _ & _). specialize (Hlt "A" 2 eq_refl).
  vm_compute in Hlt. lia.
Qed.

(** ** The scan: which records are counted *)

Section scan_facts.
Variable idx : list (string * nat).
Variables cb ub ge : string.
Variable thr : Z.

Lemma scan_record_dropped s r :
  valid_key cb ub ge thr r = None → scan_record idx cb ub ge thr s r = Ok s.
Proof.
  unfold valid_key, scan_record, read_key, get_tag.
  destruct (tags r !! ge); simpl; [|done].
  destruct (tags r !! cb); simpl; [|done].
  destruct (tags r !! ub); simpl; [|done].
  by case_decide.
Qed.

Lemma scan_record_valid s r k :
  valid_key cb ub ge thr r = Some k →
  scan_record idx cb ub ge thr s r =
    if decide (current_molecule s = Some k) then Ok s
    else record_molecule idx s k.
Proof.
  unfold valid_key, scan_record, read_key, get_tag.
  destruct (tags r !! ge); simpl; [|done].
  destruct (tags r !! cb); simpl; [|done].
  destruct (tags r !! ub); simpl; [|done].
  case_decide; [done|]. by intros [= <-].
Qed.

Lemma valid_key_tags r g c m :
  valid_key cb ub ge thr r = Some (g, c, m) ↔
  tags r !! ge = Some g ∧ tags r !! cb = Some c ∧ tags r !! ub = Some m ∧
  (thr ≤ mapping_quality r)%Z.
Proof.
  unfold valid_key.
  destruct (tags r !! ge); simpl; [|naive_solver].
  destruct (tags r !! cb); simpl; [|naive_solver].
  destruct (tags r !! ub); simpl; [|naive_solver].
  case_decide; [|naive_solver lia].
  split; [done | intros (_ & _ & _ & ?); lia].
Qed.

Lemma valid_key_None r :
  valid_key cb ub ge thr r = None ↔
  tags r !! ge = None ∨ tags r !! cb = None ∨ tags r !! ub = None ∨
  (mapping_quality r < thr)%Z.
Proof.
  unfold valid_key.
  destruct (tags r !! ge); simpl; [|naive_solver].
  destruct (tags r !! cb); simpl; [|naive_solver].
  destruct (tags r !! ub); simpl; [|naive_solver].
  case_decide; naive_solver.
Qed.

Lemma record_molecule_current s k s' :
  record_molecule idx s k = Ok s' → current_molecule s' = Some k.
Proof.
  destruct k as [[g c] m]. unfold record_molecule, PyDict.getitem.
  destruct (PyDict.get idx g); simpl; [|done].
  destruct (PyDict.get (cell_id_to_index s) c); by intros [= <-].
Qed.

(** The scan records exactly the counted molecules, in order. *)
Lemma scan_counted f : ∀ s,
  scan idx cb ub ge thr s f =
  record_all idx s (counted cb ub ge thr (current_molecule s) f).
Proof.
  induction f as [|r f IH]; intros s; simpl; [done|].
  destruct (valid_key cb ub ge thr r) as [k|] eqn:Hk.
  - rewrite (scan_record_valid _ _ _ Hk). case_decide as Hcur.
    + simpl. apply IH.
    + simpl. destruct (record_molecule idx s k) as [s'|e] eqn:Hrec;
        simpl; [|done].
      rewrite IH. by rewrite (record_molecule_current _ _ _ Hrec).
  - rewrite (scan_record_dropped _ _ Hk). simpl. apply IH.
Qed.

Lemma record_all_app ks1 ks2 : ∀ s,
  record_all idx s (ks1 ++ ks2) =
  s' ← record_all idx s ks1; record_all idx s' ks2.
Proof.
  induction ks1 as [|k ks1 IH]; intros s; simpl; [done|].
  destruct (record_molecule idx s k); simpl; [apply IH | done].
Qed.
End scan_facts.

(** ** First-seen order *)

Lemma first_seen_from_snoc seen l c :
  first_seen_from seen (l ++ [c]) =
    if decide (c ∈ first_seen_from seen l) then first_seen_from seen l
    else first_seen_from seen l ++ [c].
Proof. unfold first_seen_from. by rewrite foldl_app. Qed.

Lemma first_seen_from_cons seen c l :
  first_seen_from seen (c :: l) =
    first_seen_from (if decide (c ∈ seen) then seen else seen ++ [c]) l.
Proof. done. Qed.

Lemma first_seen_from_prefix l : ∀ seen, seen `prefix_of` first_seen_from seen l.
Proof.
  induction l as [|c l IH]; intros seen; [done|].
  rewrite first_seen_from_cons. case_decide; [apply IH|].
  etrans; [|apply IH]. by apply prefix_app_r.
Qed.

Lemma first_seen_from_NoDup l : ∀ seen,
  NoDup seen → NoDup (first_seen_from seen l).
Proof.
  induction l as [|c l IH]; intros seen Hnd; [done|].
  rewrite first_seen_from_cons. apply IH. case_decide; [done|].
  apply NoDup_app. split_and!; [done | | apply NoDup_singleton].
  intros x Hx ->%list_elem_of_singleton. done.
Qed.

Lemma first_seen_from_length l : ∀ seen,
  length (first_seen_from seen l) ≤ length seen + length l.
Proof.
  induction l as [|c l IH]; intros seen; [unfold first_seen_from; simpl; lia|].
  rewrite first_seen_from_cons. etrans; [apply IH|].
  case_decide; [simpl; lia|]. rewrite length_app. simpl. lia.
Qed.

Lemma first_seen_from_elem_of l : ∀ seen c,
  c ∈ first_seen_from seen l ↔ c ∈ seen ∨ c ∈ l.
Proof.
  induction l as [|c' l IH]; intros seen c.
  - unfold first_seen_from. simpl. rewrite elem_of_nil. tauto.
  - rewrite first_seen_from_cons, IH, elem_of_cons. case_decide.
    + naive_solver.
    + rewrite elem_of_app, list_elem_of_singleton. naive_solver.
Qed.

(** ** The scan: what recording does to the state *)

Section record_facts.
Variable idx : list (string * nat).

Lemma record_molecule_unknown s k :
  PyDict.get idx (key_gene k) = None →
  record_molecule idx s k = Raise KeyError.
Proof.
  destruct k as [[g c] m]. unfold record_molecule, PyDict.getitem, key_gene.
  simpl. by intros ->.
Qed.

Lemma record_molecule_numbered s labels k j :
  cells_numbered s labels →
  PyDict.get idx (key_gene k) = Some j →
  ∃ s' i, record_molecule idx s k = Ok s' ∧
    cells_numbered s' (first_seen_from labels [key_cell k]) ∧
    first_seen_from labels [key_cell k] !! i = Some (key_cell k) ∧
    data s' = data s ++ [1%Z] ∧
    cell_indices s' = cell_indices s ++ [i] ∧
    gene_indices s' = gene_indices s ++ [j] ∧
    current_molecule s' = Some k.
Proof.
  destruct k as [[g c] m]. unfold key_gene, key_cell. simpl.
  intros (Hd & Hn & Hnd) Hj.
  unfold record_molecule, PyDict.getitem. rewrite Hj. simpl.
  unfold first_seen_from. simpl.
  destruct (PyDict.get (cell_id_to_index s) c) as [i|] eqn:Hc.
  - rewrite Hd in Hc. apply get_zip_seq in Hc as [_ Hi]; [|done].
    rewrite Nat.sub_0_r in Hi.
    rewrite decide_True by (by eapply list_elem_of_lookup_2).
    eexists _, i. split; [done|]. simpl. by repeat split.
  - apply get_None in Hc as Hfresh. rewrite Hd, zip_seq_keys in Hfresh.
    rewrite decide_False by done.
    eexists _, (length labels). split; [done|]. simpl.
    split; [|split; [|by rewrite Hn]].
    + split_and!.
      * rewrite setitem_fresh by done. rewrite Hd, Hn, zip_seq_snoc. done.
      * rewrite length_app. simpl. lia.
      * apply NoDup_app. split_and!; [done | | apply NoDup_singleton].
        by intros x Hx ->%list_elem_of_singleton.
    + by rewrite lookup_app_r, Nat.sub_diag.
Qed.

Lemma record_all_unknown ks : ∀ s,
  Exists (λ k, PyDict.get idx (key_gene k) = None) ks →
  record_all idx s ks = Raise KeyError.
Proof.
  induction ks as [|k ks IH]; intros s Hex; [by apply Exists_nil in Hex|].
  simpl. destruct (PyDict.get idx (key_gene k)) as [j|] eqn:Hj.
  - apply Exists_cons in Hex as [Hk|Hex]; [congruence|].
    destruct (record_molecule idx s k) as [s'|e] eqn:Hrec; simpl; [by apply IH|].
    destruct k as [[g c] m]. unfold record_molecule, PyDict.getitem in Hrec.
    unfold key_gene in Hj. simpl in Hj. rewrite Hj in Hrec. simpl in Hrec.
    by destruct (PyDict.get (cell_id_to_index s) c).
  - by rewrite record_molecule_unknown.
Qed.

Lemma record_all_numbered ks : ∀ s labels,
  cells_numbered s labels →
  Forall (λ k, is_Some (PyDict.get idx (key_gene k))) ks →
  ∃ s' rows cols, record_all idx s ks = Ok s' ∧
    cells_numbered s' (first_seen_from labels (key_cell <$> ks)) ∧
    data s' = data s ++ replicate (length ks) 1%Z ∧
    cell_indices s' = cell_indices s ++ rows ∧
    gene_indices s' = gene_indices s ++ cols ∧
    Forall2 (λ k i, first_seen_from labels (key_cell <$> ks) !! i
                    = Some (key_cell k)) ks rows ∧
    Forall2 (λ k j, PyDict.get idx (key_gene k) = Some j) ks cols ∧
    current_molecule s' = default (current_molecule s) (Some <$> last ks).
Proof.
  induction ks as [|k ks IH]; intros s labels Hs Hall.
  - exists s, [], []. simpl. rewrite !app_nil_r.
    split_and!; try done; constructor.
  - apply Forall_cons in Hall as [[j Hj] Hall].
    destruct (record_molecule_numbered s labels k j Hs Hj)
      as (s1 & i & Hrec & Hs1 & Hi & Hd1 & Hr1 & Hc1 & Hm1).
    destruct (IH s1 _ Hs1 Hall)
      as (s' & rows & cols & Hall' & Hs' & Hd & Hr & Hc & Hrows & Hcols & Hm).
    exists s', (i :: rows), (j :: cols). simpl. rewrite Hrec. simpl.
    rewrite first_seen_from_cons.
    change (if decide (key_cell k ∈ labels) then labels
            else labels ++ [key_cell k])
      with (first_seen_from labels [key_cell k]).
    split_and!; try done.
    + rewrite Hd, Hd1, <- app_assoc. done.
    + rewrite Hr, Hr1, <- app_assoc. done.
    + rewrite Hc, Hc1, <- app_assoc. done.
    + constructor; [|done].
      eapply prefix_lookup_Some; [done|]. apply first_seen_from_prefix.
    + by constructor.
    + rewrite Hm, Hm1. destruct ks as [|k' ks]; [done|].
      rewrite last_cons_cons.
      destruct (last (k' :: ks)) eqn:E; [done|]. by apply last_None in E.
Qed.

Lemma record_all_Ok_known ks s s' :
  record_all idx s ks = Ok s' →
  Forall (λ k, is_Some (PyDict.get idx (key_gene k))) ks.
Proof.
  intros Hok. apply Forall_forall. intros k Hk.
  destruct (PyDict.get idx (key_gene k)) eqn:Hg; [by eexists|].
  rewrite record_all_unknown in Hok; [done|].
  apply Exists_exists. eauto.
Qed.
End record_facts.

Lemma scan_init_numbered : cells_numbered scan_init [].
Proof. repeat split. constructor. Qed.

(** ** Counted molecules *)

Section counted_facts.
Variables cb ub ge : string.
Variable thr : Z.

Lemma scan_app idx f1 f2 : ∀ s,
  scan idx cb ub ge thr s (f1 ++ f2) =
  s' ← scan idx cb ub ge thr s f1; scan idx cb ub ge thr s' f2.
Proof.
  induction f1 as [|r f1 IH]; intros s; simpl; [done|].
  destruct (scan_record idx cb ub ge thr s r); simpl; [apply IH | done].
Qed.

Lemma counted_app f1 f2 : ∀ last_key,
  counted cb ub ge thr last_key (f1 ++ f2) =
  counted cb ub ge thr last_key f1 ++
  counted cb ub ge thr (current_after cb ub ge thr last_key f1) f2.
Proof.
  unfold current_after.
  induction f1 as [|r f1 IH]; intros last_key; simpl; [done|].
  destruct (valid_key cb ub ge thr r) as [k|]; [|apply IH].
  case_decide; [apply IH|]. rewrite IH. simpl. do 3 f_equal.
  destruct (counted cb ub ge thr (Some k) f1) as [|k' ks] eqn:E; [done|].
  rewrite last_cons_cons.
  destruct (last (k' :: ks)) eqn:E'; [done|]. by apply last_None in E'.
Qed.

(** Every counted key is the key of a valid record of the stream. *)
Lemma counted_elem_of f : ∀ last_key k,
  k ∈ counted cb ub ge thr last_key f →
  ∃ r, r ∈ f ∧ valid_key cb ub ge thr r = Some k.
Proof.
  induction f as [|r f IH]; intros last_key k; simpl; [by intros ?%elem_of_nil|].
  destruct (valid_key cb ub ge thr r) as [k0|] eqn:Hr.
  - case_decide.
    + intros (r' & ? & ?)%IH. exists r'. split; [by right | done].
    + intros [->|(r' & ? & ?)%IH]%elem_of_cons.
      * exists r. split; [left | done].
      * exists r'. split; [by right | done].
  - intros (r' & ? & ?)%IH. exists r'. split; [by right | done].
Qed.

(** The key of a valid record is counted, unless it continues the
    molecule that was current when the stream began. *)
Lemma valid_counted f : ∀ last_key r k,
  r ∈ f → valid_key cb ub ge thr r = Some k →
  k ∈ counted cb ub ge thr last_key f ∨ last_key = Some k.
Proof.
  induction f as [|r0 f IH]; intros last_key r k Hin Hk;
    [by apply elem_of_nil in Hin|].
  simpl. apply elem_of_cons in Hin as [->|Hin].
  - rewrite Hk. case_decide; [by right|]. left. left.
  - destruct (valid_key cb ub ge thr r0) as [k0|] eqn:Hr0; [|by eapply IH].
    case_decide; [by eapply IH|].
    destruct (IH (Some k0) r k Hin Hk) as [?|[= ->]].
    + left. by right.
    + left. left.
Qed.

Lemma current_after_cases f last_key :
  current_after cb ub ge thr last_key f = last_key ∨
  ∃ k, current_after cb ub ge thr last_key f = Some k ∧
       k ∈ counted cb ub ge thr last_key f.
Proof.
  unfold current_after.
  destruct (last (counted cb ub ge thr last_key f)) as [k|] eqn:E; simpl.
  - right. exists k. split; [done|].
    apply last_Some in E as [l ->]. apply elem_of_app. right. left.
  - by left.
Qed.

(** A run of valid records of one key is counted as its first record. *)
Lemma counted_run run key rest : ∀ last_key,
  run ≠ [] →
  Forall (λ x, valid_key cb ub ge thr x = Some key) run →
  counted cb ub ge thr last_key (run ++ rest) =
    if decide (last_key = Some key)
    then counted cb ub ge thr last_key rest
    else key :: counted cb ub ge thr (Some key) rest.
Proof.
  induction run as [|r run IH]; intros last_key Hne Hall; [done|].
  apply Forall_cons in Hall as [Hr Hall]. simpl. rewrite Hr.
  destruct run as [|r' run].
  - simpl. done.
  - case_decide.
    + rewrite IH by done. by rewrite decide_True.
    + rewrite IH by done. by rewrite decide_True.
Qed.

Lemma counted_dropped pre r post : ∀ last_key,
  valid_key cb ub ge thr r = None →
  counted cb ub ge thr last_key (pre ++ r :: post) =
  counted cb ub ge thr last_key (pre ++ post).
Proof.
  intros last_key Hr. rewrite !counted_app. simpl. by rewrite Hr.
Qed.

Lemma occurrences_app key ks1 ks2 :
  occurrences key (ks1 ++ ks2) = occurrences key ks1 + occurrences key ks2.
Proof. unfold occurrences. by rewrite filter_app, length_app. Qed.

Lemma occurrences_absent key ks : key ∉ ks → occurrences key ks = 0.
Proof.
  unfold occurrences. induction ks as [|k ks IH]; [done|].
  intros [Hne Hks]%not_elem_of_cons.
  rewrite filter_cons_False by congruence. auto.
Qed.

Lemma occurrences_cons key ks : occurrences key (key :: ks) = S (occurrences key ks).
Proof. unfold occurrences. by rewrite filter_cons_True. Qed.
End counted_facts.

(** ** [from_bam] in terms of the counted molecules *)

Section from_bam_facts.
Variables cb ub ge : string.
Variable thr : Z.

Lemma from_bam_counted_ext stream stream' ann :
  counted cb ub ge thr None stream = counted cb ub ge thr None stream' →
  from_bam stream ann cb ub ge thr = from_bam stream' ann cb ub ge thr.
Proof.
  intros Heq. unfold from_bam.
  destruct (build_gene_index ann) as [idx|e]; simpl; [|done].
  rewrite !scan_counted. simpl. by rewrite Heq.
Qed.

Lemma from_bam_Ok_inv stream ann M :
  from_bam stream ann cb ub ge thr = Ok M →
  ∃ idx s coo,
    build_gene_index ann = Ok idx ∧
    scan idx cb ub ge thr scan_init stream = Ok s ∧
    coo_matrix_new (data s) (cell_indices s) (gene_indices s)
      (length (cell_indices s), PyDict.len idx) = Ok coo ∧
    M = mkCountMatrix (tocsr coo) (keys_by_value (cell_id_to_index s))
          (keys_by_value idx).
Proof.
  unfold from_bam. intros H.
  destruct (build_gene_index ann) as [idx|e] eqn:Hidx; simpl in H; [|done].
  destruct (scan idx cb ub ge thr scan_init stream) as [s|e] eqn:Hs;
    simpl in H; [|done].
  destruct (coo_matrix_new _ _ _ _) as [coo|e] eqn:Hcoo; simpl in H; [|done].
  exists idx, s, coo. by simplify_eq.
Qed.

(** The state in which a successful scan ends. *)
Lemma scan_init_Ok idx stream s :
  scan idx cb ub ge thr scan_init stream = Ok s →
  let keys := counted cb ub ge thr None stream in
  let labels := first_seen (key_cell <$> keys) in
  cells_numbered s labels ∧
  data s = replicate (length keys) 1%Z ∧
  Forall2 (λ k i, labels !! i = Some (key_cell k)) keys (cell_indices s) ∧
  Forall2 (λ k j, PyDict.get idx (key_gene k) = Some j) keys (gene_indices s) ∧
  current_molecule s = last keys.
Proof.
  rewrite scan_counted. simpl. intros Hok.
  destruct (record_all_numbered idx _ scan_init [] scan_init_numbered
              (record_all_Ok_known idx _ _ _ Hok))
    as (s' & rows & cols & Hok' & Hnum & Hd & Hr & Hc & Hrows & Hcols & Hm).
  rewrite Hok in Hok'. simplify_eq.
  simpl in Hd, Hr, Hc, Hm. rewrite Hr, Hc.
  split_and!; try done.
  rewrite Hm. by destruct (last _).
Qed.

Lemma scan_init_lengths idx stream s :
  scan idx cb ub ge thr scan_init stream = Ok s →
  length (cell_indices s) = length (counted cb ub ge thr None stream) ∧
  length (gene_indices s) = length (counted cb ub ge thr None stream) ∧
  length (data s) = length (counted cb ub ge thr None stream).
Proof.
  intros (_ & Hd & Hr & Hc & _)%scan_init_Ok.
  apply Forall2_length in Hr, Hc. rewrite Hd, length_replicate. lia.
Qed.
End from_bam_facts.

Lemma entries_at_snoc rows cols i j :
  length rows = length cols →
  entries_at (rows ++ [i]) (cols ++ [j]) i j = S (entries_at rows cols i j).
Proof.
  intros Hlen. unfold entries_at.
  rewrite zip_with_app by done. simpl.
  rewrite filter_app, length_app. rewrite filter_cons_True by done.
  simpl. lia.
Qed.

Lemma entries_at_snoc_ne rows cols i j i' j' :
  length rows = length cols →
  (i', j') ≠ (i, j) →
  entries_at (rows ++ [i]) (cols ++ [j]) i' j' = entries_at rows cols i' j'.
Proof.
  intros Hlen Hne. unfold entries_at.
  rewrite zip_with_app by done. simpl.
  rewrite filter_app, length_app. rewrite filter_cons_False by congruence.
  simpl. lia.
Qed.

(** ** Dropped records *)

(** C9: a record that lacks the gene, cell or molecule tag, or whose
    mapping quality is below the threshold, is passed over: the iteration
    leaves the state of the scan as it was and raises nothing, and the
    result of [from_bam] is the one of the stream without the record. *)
Theorem dropped_record_is_silent (cb ub ge : string) (thr : Z) (r : sam_record) :
  tags r !! ge = None ∨ tags r !! cb = None ∨ tags r !! ub = None ∨
    (mapping_quality r < thr)%Z →
  (∀ idx s, scan_record idx cb ub ge thr s r = Ok s) ∧
  (∀ ann pre post,
     from_bam (pre ++ r :: post) ann cb ub ge thr =
     from_bam (pre ++ post) ann cb ub ge thr).
Proof.
  intros Hr%valid_key_None. split.
  - intros idx s. by apply scan_record_dropped.
  - intros ann pre post. apply from_bam_counted_ext.
    by apply counted_dropped.
Qed.

Lemma dropped_record_is_silent_witness :
  from_bam (tagged "GeneA" "CellX" "Mol1" 0 ::
            SamRecord {[ "GE" := "GeneA"; "UB" := "Mol1" ]} 0 ::
            [tagged "GeneA" "CellX" "Mol1" 0])
    scenario_annotation "CB" "UB" "GE" 0 =
  from_bam [tagged "GeneA" "CellX" "Mol1" 0; tagged "GeneA" "CellX" "Mol1" 0]
    scenario_annotation "CB" "UB" "GE" 0.
Proof.
  refine (proj2 (dropped_record_is_silent "CB" "UB" "GE" 0
                   (SamRecord {[ "GE" := "GeneA"; "UB" := "Mol1" ]} 0) _)
            scenario_annotation [tagged "GeneA" "CellX" "Mol1" 0]
            [tagged "GeneA" "CellX" "Mol1" 0]).
  right. left. vm_compute. reflexivity.
Defined.

(** ** The number of a cell *)

Lemma numbered_get s labels c i :
  cells_numbered s labels →
  PyDict.get (cell_id_to_index s) c = Some i ↔ labels !! i = Some c.
Proof.
  intros (-> & _ & Hnd). rewrite get_zip_seq by done. rewrite Nat.sub_0_r.
  split; [by intros [_ ?] | intros ?; split; [lia | done]].
Qed.

(** ** A gene tag that the index does not know *)

(** C4, as amended: when the stream contains a valid record (gene, cell and
    molecule tags present, mapping quality not below the threshold) whose
    gene tag has no entry in the gene index, [from_bam] raises [KeyError]
    (the lookup [gene_id_to_index[gene]] fails) and returns no matrix. *)
Theorem unknown_gene_of_valid_record_is_fatal (cb ub ge : string) (thr : Z)
    (stream : list sam_record) (ann : list gtf_record)
    (idx : list (string * nat)) (r : sam_record) (g c m : string) :
  build_gene_index ann = Ok idx →
  r ∈ stream →
  tags r !! ge = Some g → tags r !! cb = Some c → tags r !! ub = Some m →
  (thr ≤ mapping_quality r)%Z →
  PyDict.get idx g = None →
  from_bam stream ann cb ub ge thr = Raise KeyError.
Proof.
  intros Hidx Hin Hg Hc Hm Hq Hmiss.
  assert (valid_key cb ub ge thr r = Some (g, c, m)) as Hvalid
    by (by apply valid_key_tags).
  unfold from_bam. rewrite Hidx. simpl. rewrite scan_counted. simpl.
  rewrite record_all_unknown; [done|].
  apply Exists_exists. exists (g, c, m). split; [|done].
  by destruct (valid_counted cb ub ge thr stream None r _ Hin Hvalid).
Qed.

Lemma unknown_gene_of_valid_record_is_fatal_witness :
  from_bam [tagged "GeneA" "CellX" "Mol1" 0; tagged "GeneZ" "CellX" "Mol2" 0]
    scenario_annotation "CB" "UB" "GE" 0 = Raise KeyError.
Proof.
  apply (unknown_gene_of_valid_record_is_fatal "CB" "UB" "GE" 0 _
           scenario_annotation [("GeneA", 0); ("GeneB", 1)]
           (tagged "GeneZ" "CellX" "Mol2" 0) "GeneZ" "CellX" "Mol2").
  - vm_compute. reflexivity.
  - right. left.
  - vm_compute. reflexivity.
  - vm_compute. reflexivity.
  - vm_compute. reflexivity.
  - simpl. lia.
  - vm_compute. reflexivity.
Defined.

(** C4 as stated fails: a record whose gene tag is present and unknown to
    the index, but which lacks the cell tag, is dropped by the
    [except KeyError: continue] of the tag lookups before its gene is ever
    looked up; [from_bam] returns a matrix, the one of the stream without
    the record. *)
Lemma unknown_gene_without_cell_tag_is_skipped :
  let r := SamRecord {[ "GE" := "GeneZ"; "UB" := "Mol2" ]} 0 in
  let stream := [tagged "GeneA" "CellX" "Mol1" 0; r] in
  tags r !! "GE" = Some "GeneZ" ∧
  (∃ idx, build_gene_index scenario_annotation = Ok idx ∧
          PyDict.get idx "GeneZ" = None) ∧
  from_bam stream scenario_annotation "CB" "UB" "GE" 0 =
    Ok (mkCountMatrix (CsrMatrix 2 [{[ 0 := 1%Z ]}])
          ["CellX"] ["GeneA"; "GeneB"]) ∧
  from_bam stream scenario_annotation "CB" "UB" "GE" 0 =
    from_bam [tagged "GeneA" "CellX" "Mol1" 0] scenario_annotation
      "CB" "UB" "GE" 0.
Proof.
  split_and!.
  - vm_compute. reflexivity.
  - eexists. split; vm_compute; reflexivity.
  - vm_compute. reflexivity.
  - vm_compute. reflexivity.
Qed.

(** ** Duplicates that are not contiguous *)

(** C8, as amended: when a triple is the key of exactly two valid records
    of the stream and a valid record of a different triple lies strictly
    between them, a scan that succeeds counts the triple twice: it occurs
    twice among the counted molecules, each of which contributes one
    coordinate entry of value 1 at the row of its cell and the column of
    its gene. *)
Theorem separated_duplicates_counted_twice (cb ub ge : string) (thr : Z)
    (idx : list (string * nat)) (pre mid post : list sam_record)
    (r1 r2 x : sam_record) (key key' : molecule_key) (s : scan_state) :
  valid_key cb ub ge thr r1 = Some key →
  valid_key cb ub ge thr r2 = Some key →
  x ∈ mid → valid_key cb ub ge thr x = Some key' → key' ≠ key →
  (∀ y, y ∈ pre ++ mid ++ post → valid_key cb ub ge thr y ≠ Some key) →
  scan idx cb ub ge thr scan_init (pre ++ r1 :: mid ++ r2 :: post) = Ok s →
  let keys := counted cb ub ge thr None (pre ++ r1 :: mid ++ r2 :: post) in
  occurrences key keys = 2 ∧
  data s = replicate (length keys) 1%Z ∧
  Forall2 (λ k i, PyDict.get (cell_id_to_index s) (key_cell k) = Some i)
          keys (cell_indices s) ∧
  Forall2 (λ k j, PyDict.get idx (key_gene k) = Some j)
          keys (gene_indices s).
Proof.
  intros Hr1 Hr2 Hx Hkx Hne Honly Hscan keys.
  destruct (scan_init_Ok _ _ _ _ _ _ _ Hscan) as (Hnum & Hd & Hrows & Hcols & _).
  split_and!; [|done| |done].
  2:{ eapply Forall2_impl; [exact Hrows|]. intros k i Hi.
      by apply (numbered_get _ _ _ _ Hnum). }
  assert (∀ last_key f, (∀ y, y ∈ f → y ∈ pre ++ mid ++ post) →
            key ∉ counted cb ub ge thr last_key f) as Habsent.
  { intros last_key f Hsub (y & Hy & Hky)%counted_elem_of.
    by apply (Honly y (Hsub y Hy)). }
  assert (∀ last_key f, (∀ y, y ∈ f → y ∈ pre ++ mid ++ post) →
            last_key ≠ Some key →
            current_after cb ub ge thr last_key f ≠ Some key) as Hcur.
  { intros last_key f Hsub Hlast.
    destruct (current_after_cases cb ub ge thr f last_key)
      as [->|(k & -> & Hk)]; [done|].
    intros [= ->]. by apply (Habsent last_key f Hsub). }
  subst keys. rewrite (counted_app cb ub ge thr pre).
  rewrite occurrences_app.
  rewrite occurrences_absent by (apply Habsent; set_solver).
  simpl. rewrite Hr1.
  rewrite decide_False by (apply Hcur; [set_solver | done]).
  rewrite occurrences_cons, (counted_app cb ub ge thr mid), occurrences_app.
  rewrite occurrences_absent by (apply Habsent; set_solver).
  simpl. rewrite Hr2.
  assert (current_after cb ub ge thr (Some key) mid ≠ Some key) as Hmid.
  { destruct (valid_counted cb ub ge thr mid (Some key) x key' Hx Hkx)
      as [Hin|[= ->]]; [|done].
    unfold current_after.
    destruct (last (counted cb ub ge thr (Some key) mid)) as [k|] eqn:E.
    - simpl. intros [= ->]. apply last_Some in E as [l E].
      apply (Habsent (Some key) mid); [set_solver|].
      rewrite E. apply elem_of_app. right. left.
    - apply last_None in E. rewrite E in Hin. by apply elem_of_nil in Hin. }
  rewrite decide_False by done.
  rewrite occurrences_cons.
  rewrite occurrences_absent by (apply Habsent; set_solver).
  done.
Qed.

Lemma separated_duplicates_counted_twice_witness :
  occurrences ("GeneA", "CellX", "Mol1")
    (counted "CB" "UB" "GE" 0 None
       ([] ++ tagged "GeneA" "CellX" "Mol1" 0 ::
        [tagged "GeneB" "CellX" "Mol2" 0] ++
        tagged "GeneA" "CellX" "Mol1" 0 :: [])) = 2.
Proof.
  refine (proj1 (separated_duplicates_counted_twice "CB" "UB" "GE" 0
                   [("GeneA", 0); ("GeneB", 1)]
                   [] [tagged "GeneB" "CellX" "Mol2" 0] []
                   (tagged "GeneA" "CellX" "Mol1" 0)
                   (tagged "GeneA" "CellX" "Mol1" 0)
                   (tagged "GeneB" "CellX" "Mol2" 0)
                   ("GeneA", "CellX", "Mol1") ("GeneB", "CellX", "Mol2")
                   (ScanState [1; 1; 1]%Z [0; 0; 0] [0; 1; 0] 1 [("CellX", 0)]
                      (Some ("GeneA", "CellX", "Mol1")))
                   _ _ _ _ _ _ _)).
  - vm_compute. reflexivity.
  - vm_compute. reflexivity.
  - left.
  - vm_compute. reflexivity.
  - discriminate.
  - intros y Hy. simpl in Hy. apply list_elem_of_singleton in Hy. subst y.
    vm_compute. discriminate.
  - vm_compute. reflexivity.
Defined.

(** C8 as stated fails when the record in between is below the
    mapping-quality threshold: it bears a different triple, but it is
    dropped before the comparison with the current molecule, so the two
    occurrences around it collapse into one entry. *)
Lemma separated_by_low_quality_record_counted_once :
  let r := tagged "GeneA" "CellX" "Mol1" 30 in
  let x := tagged "GeneB" "CellX" "Mol2" 5 in
  read_key "CB" "UB" "GE" r = Ok ("GeneA", "CellX", "Mol1") ∧
  read_key "CB" "UB" "GE" x = Ok ("GeneB", "CellX", "Mol2") ∧
  scan [("GeneA", 0); ("GeneB", 1)] "CB" "UB" "GE" 10 scan_init [r; x; r] =
    Ok (ScanState [1%Z] [0] [0] 1 [("CellX", 0)]
          (Some ("GeneA", "CellX", "Mol1"))) ∧
  occurrences ("GeneA", "CellX", "Mol1")
    (counted "CB" "UB" "GE" 10 None [r; x; r]) = 1 ∧
  from_bam [r; x; r] scenario_annotation "CB" "UB" "GE" 10 =
    Ok (mkCountMatrix (CsrMatrix 2 [{[ 0 := 1%Z ]}])
          ["CellX"] ["GeneA"; "GeneB"]).
Proof. split_and!; vm_compute; reflexivity. Qed.

(** ** Row labels *)

Lemma first_seen_snoc l c :
  first_seen (l ++ [c]) =
    if decide (c ∈ l) then first_seen l else first_seen l ++ [c].
Proof.
  unfold first_seen. rewrite first_seen_from_snoc.
  destruct (decide (c ∈ l)) as [Hin|Hin].
  - rewrite decide_True; [done|]. apply first_seen_from_elem_of. by right.
  - rewrite decide_False; [done|].
    intros [?%elem_of_nil|?]%first_seen_from_elem_of; done.
Qed.

Lemma first_seen_NoDup l : NoDup (first_seen l).
Proof. apply first_seen_from_NoDup. constructor. Qed.

(** C5: row indices go to cell barcodes in first-seen order.  After a
    successful [from_bam] the row labels are the distinct cell barcodes of
    the counted records in order of first occurrence; in the scan that
    produced them the barcode with index [k] is the [k]-th of these, and
    every counted record was given the index of its barcode. *)
Theorem row_labels_in_first_seen_order (cb ub ge : string) (thr : Z)
    (stream : list sam_record) (ann : list gtf_record) (M : CountMatrix) :
  from_bam stream ann cb ub ge thr = Ok M →
  let cells := key_cell <$> counted cb ub ge thr None stream in
  row_index M = first_seen cells ∧
  ∃ idx s,
    build_gene_index ann = Ok idx ∧
    scan idx cb ub ge thr scan_init stream = Ok s ∧
    (∀ c k, PyDict.get (cell_id_to_index s) c = Some k ↔
            first_seen cells !! k = Some c) ∧
    Forall2 (λ c k, first_seen cells !! k = Some c) cells (cell_indices s).
Proof.
  intros (idx & s & coo & Hidx & Hscan & _ & ->)%from_bam_Ok_inv cells.
  destruct (scan_init_Ok _ _ _ _ _ _ _ Hscan) as (Hnum & _ & Hrows & _).
  fold cells in Hnum, Hrows. split.
  - simpl. destruct Hnum as (-> & _ & _). apply keys_by_value_zip_seq.
  - exists idx, s. split_and!; try done.
    + intros c k. by apply numbered_get.
    + unfold cells at 2. by apply Forall2_fmap_l.
Qed.

Lemma row_labels_in_first_seen_order_witness :
  let stream := [tagged "g1" "c2" "m1" 0; tagged "g2" "c1" "m2" 0;
                 tagged "g3" "c2" "m3" 0; tagged "g4" "c3" "m4" 0] in
  let ann := [gene_record "g1"; gene_record "g2"; gene_record "g3";
              gene_record "g4"] in
  ∃ M, from_bam stream ann "CB" "UB" "GE" 0 = Ok M ∧
       row_index M = ["c2"; "c1"; "c3"].
Proof.
  intros stream ann.
  destruct (from_bam stream ann "CB" "UB" "GE" 0) as [M|e] eqn:HM;
    [|vm_compute in HM; discriminate].
  exists M. split; [done|].
  rewrite (proj1 (row_labels_in_first_seen_order "CB" "UB" "GE" 0
                    stream ann M HM)).
  vm_compute. reflexivity.
Defined.

(** ** Shape and values of the matrix of [from_bam] *)

Lemma uint32_add_l a v : uint32 (uint32 a + v) = uint32 (a + v).
Proof. unfold uint32. by rewrite Zplus_mod_idemp_l. Qed.

Lemma entries_total_snoc entries e i j :
  entries_total (entries ++ [e]) i j =
    if decide (e.1 = (i, j)) then (entries_total entries i j + e.2)%Z
    else entries_total entries i j.
Proof.
  unfold entries_total. induction entries as [|e' entries IH]; simpl.
  - case_decide; lia.
  - rewrite IH. repeat case_decide; lia.
Qed.

Lemma sum_row_total entries i j :
  default 0%Z (sum_row entries i !! j) = uint32 (entries_total entries i j).
Proof.
  induction entries as [|e entries IH] using rev_ind; [done|].
  unfold sum_row in *. rewrite foldl_app. simpl.
  rewrite entries_total_snoc.
  destruct e as [[i' j'] v]. simpl.
  destruct (decide (i' = i)) as [->|Hi].
  - destruct (decide (j' = j)) as [->|Hj].
    + rewrite lookup_insert_eq, decide_True by done. simpl.
      by rewrite IH, uint32_add_l.
    + rewrite lookup_insert_ne, decide_False by congruence. done.
  - rewrite decide_False by congruence. done.
Qed.

Lemma csr_get_tocsr coo i j :
  i < (coo_shape coo).1 →
  csr_get (tocsr coo) i j = uint32 (entries_total (coo_entries coo) i j).
Proof.
  intros Hi. unfold csr_get, tocsr. simpl.
  rewrite list_lookup_fmap, lookup_seq_lt by done. simpl.
  apply sum_row_total.
Qed.

Lemma entries_total_ones rows : ∀ cols i j,
  length rows = length cols →
  entries_total
    (zip (zip rows cols) (uint32 <$> replicate (length rows) 1%Z)) i j =
  Z.of_nat (entries_at rows cols i j).
Proof.
  unfold entries_total, entries_at.
  induction rows as [|r rows IH]; intros [|c cols] i j Hlen;
    simplify_eq/=; [done|].
  rewrite IH by done. case_decide as Heq; simpl in Heq.
  - rewrite filter_cons_True by done. simpl. change (uint32 1) with 1%Z. lia.
  - rewrite filter_cons_False by done. done.
Qed.

Lemma entries_at_out_of_range rows cols i j :
  Forall (λ r, r < i) rows → entries_at rows cols i j = 0.
Proof.
  unfold entries_at. revert cols.
  induction rows as [|r rows IH]; intros [|c cols] Hall; simpl; try done.
  apply Forall_cons in Hall as [Hr Hall].
  rewrite filter_cons_False by (intros [= -> _]; lia). by apply IH.
Qed.

Lemma first_seen_length l : length (first_seen l) ≤ length l.
Proof. apply (first_seen_from_length l []). Qed.

Section from_bam_matrix.
Variables cb ub ge : string.
Variable thr : Z.

(** The matrix has one row for every counted molecule and one column
    for every entry of the gene index; there is one row label for every
    distinct cell. *)
Lemma from_bam_shape stream ann M :
  from_bam stream ann cb ub ge thr = Ok M →
  csr_shape (matrix M) =
    (length (counted cb ub ge thr None stream), length (col_index M)) ∧
  length (row_index M) =
    length (first_seen (key_cell <$> counted cb ub ge thr None stream)).
Proof.
  intros (idx & s & coo & Hidx & Hscan & Hcoo & ->)%from_bam_Ok_inv.
  destruct (scan_init_Ok _ _ _ _ _ _ _ Hscan) as (Hnum & _).
  destruct (scan_init_lengths _ _ _ _ _ _ _ Hscan) as (Hr & _).
  unfold coo_matrix_new in Hcoo. repeat case_decide; simplify_eq. simpl.
  split.
  - unfold csr_shape. simpl.
    by rewrite length_fmap, length_seq, Hr, keys_by_value_length.
  - destruct Hnum as (-> & _). by rewrite keys_by_value_zip_seq.
Qed.

(** The value at [(i, j)] is the number of coordinate entries recorded
    there, as a [uint32]. *)
Lemma from_bam_value stream ann M idx s :
  from_bam stream ann cb ub ge thr = Ok M →
  build_gene_index ann = Ok idx →
  scan idx cb ub ge thr scan_init stream = Ok s →
  ∀ i j, csr_get (matrix M) i j =
         uint32 (Z.of_nat (entries_at (cell_indices s) (gene_indices s) i j)).
Proof.
  intros (idx' & s' & coo & Hidx' & Hscan' & Hcoo & ->)%from_bam_Ok_inv
    Hidx Hscan i j.
  assert (idx' = idx) as -> by congruence.
  assert (s' = s) as -> by congruence.
  destruct (scan_init_Ok _ _ _ _ _ _ _ Hscan) as (_ & Hd & _).
  destruct (scan_init_lengths _ _ _ _ _ _ _ Hscan) as (Hr & Hc & _).
  unfold coo_matrix_new in Hcoo.
  destruct (decide _) as [_|]; [|done].
  destruct (decide _) as [[Hrows _]|]; [|done].
  simplify_eq. simpl in *.
  destruct (decide (i < length (cell_indices s))) as [Hi|Hi].
  - rewrite csr_get_tocsr by done. unfold coo_entries. simpl.
    rewrite Hd, <- Hr. rewrite entries_total_ones by lia. done.
  - unfold csr_get, tocsr. simpl.
    rewrite list_lookup_fmap, lookup_seq_ge by lia. simpl.
    rewrite entries_at_out_of_range; [done|].
    eapply Forall_impl; [exact Hrows|]. simpl. lia.
Qed.
Lemma scan_init_rows_in_range idx stream s :
  scan idx cb ub ge thr scan_init stream = Ok s →
  Forall (λ i, i < length (keys_by_value (cell_id_to_index s)))
         (cell_indices s) ∧
  length (keys_by_value (cell_id_to_index s)) ≤ length (cell_indices s).
Proof.
  intros Hscan.
  destruct (scan_init_Ok _ _ _ _ _ _ _ Hscan) as ((Hd & _) & _ & Hrows & _).
  destruct (scan_init_lengths _ _ _ _ _ _ _ Hscan) as (Hr & _).
  rewrite Hd, keys_by_value_zip_seq. split.
  - eapply Forall2_Forall_r; [exact Hrows|].
    apply Forall_forall. intros k _ i Hi. by eapply lookup_lt_Some.
  - rewrite Hr. etrans; [apply first_seen_length|]. by rewrite length_fmap.
Qed.

(** Once the scan has succeeded, only the matrix constructor can still
    refuse, and only a column index. *)
Lemma from_bam_after_scan stream ann idx s :
  build_gene_index ann = Ok idx →
  scan idx cb ub ge thr scan_init stream = Ok s →
  from_bam stream ann cb ub ge thr =
    if decide (Forall (λ j, j < PyDict.len idx) (gene_indices s))
    then Ok (mkCountMatrix
               (tocsr (CooMatrix (length (cell_indices s), PyDict.len idx)
                         (cell_indices s) (gene_indices s)
                         (uint32 <$> data s)))
               (keys_by_value (cell_id_to_index s)) (keys_by_value idx))
    else Raise ValueError.
Proof.
  intros Hidx Hscan. unfold from_bam. rewrite Hidx. simpl.
  rewrite Hscan. simpl.
  destruct (scan_init_lengths _ _ _ _ _ _ _ Hscan) as (Hr & Hc & Hd).
  destruct (scan_init_rows_in_range _ _ _ Hscan) as (Hrows & Hle).
  unfold coo_matrix_new. rewrite decide_True by lia. simpl.
  destruct (decide (Forall (λ j, j < PyDict.len idx) (gene_indices s)))
    as [Hcols|Hcols].
  - rewrite decide_True; [done|]. split; [|done].
    eapply Forall_impl; [exact Hrows|]. simpl. lia.
  - rewrite decide_False; [done|]. by intros [_ ?].
Qed.

End from_bam_matrix.

(** ** Collapsing of contiguous duplicates *)

(** C3: [k >= 1] contiguous valid records of one (gene, cell, molecule)
    triple count as one molecule, not as [k].  Whatever surrounds the run,
    [from_bam] gives the result it gives with a single record of that
    triple in its place.  When the run holds all the valid records of the
    triple, the triple is counted exactly once.  Where the run begins a
    new molecule whose gene is in the index, scanning it appends exactly
    one coordinate entry of value 1, at the row of the cell and the column
    of the gene.  And in the matrix that [from_bam] returns, the run at
    the end of a stream raises the entry at the row of the cell and the
    column of the gene by exactly 1, whatever the length of the run, and
    leaves every other entry as it was. *)
Theorem contiguous_duplicates_counted_once (cb ub ge : string) (thr : Z)
    (key : molecule_key) (run : list sam_record) :
  run ≠ [] →
  Forall (λ x, valid_key cb ub ge thr x = Some key) run →
  (∀ r ann pre post,
     valid_key cb ub ge thr r = Some key →
     from_bam (pre ++ run ++ post) ann cb ub ge thr =
     from_bam (pre ++ r :: post) ann cb ub ge thr) ∧
  (∀ pre post,
     (∀ y, y ∈ pre ++ post → valid_key cb ub ge thr y ≠ Some key) →
     occurrences key (counted cb ub ge thr None (pre ++ run ++ post)) = 1) ∧
  (∀ idx pre s j,
     scan idx cb ub ge thr scan_init pre = Ok s →
     current_molecule s ≠ Some key →
     PyDict.get idx (key_gene key) = Some j →
     ∃ s' i, scan idx cb ub ge thr s run = Ok s' ∧
       PyDict.get (cell_id_to_index s') (key_cell key) = Some i ∧
       data s' = data s ++ [1%Z] ∧
       cell_indices s' = cell_indices s ++ [i] ∧
       gene_indices s' = gene_indices s ++ [j] ∧
       entries_at (cell_indices s') (gene_indices s') i j =
         S (entries_at (cell_indices s) (gene_indices s) i j)) ∧
  (∀ ann idx pre M j,
     build_gene_index ann = Ok idx →
     from_bam pre ann cb ub ge thr = Ok M →
     last (counted cb ub ge thr None pre) ≠ Some key →
     PyDict.get idx (key_gene key) = Some j →
     j < PyDict.len idx →
     ∃ M' i,
       from_bam (pre ++ run) ann cb ub ge thr = Ok M' ∧
       row_index M' !! i = Some (key_cell key) ∧
       csr_get (matrix M') i j = uint32 (csr_get (matrix M) i j + 1) ∧
       ((csr_get (matrix M) i j < 2 ^ 32 - 1)%Z →
        csr_get (matrix M') i j = (csr_get (matrix M) i j + 1)%Z) ∧
       (∀ i' j', (i', j') ≠ (i, j) →
          csr_get (matrix M') i' j' = csr_get (matrix M) i' j')).
Proof.
  intros Hne Hrun.
  assert (∀ idx pre s j,
            scan idx cb ub ge thr scan_init pre = Ok s →
            current_molecule s ≠ Some key →
            PyDict.get idx (key_gene key) = Some j →
            ∃ s' i, scan idx cb ub ge thr s run = Ok s' ∧
              PyDict.get (cell_id_to_index s') (key_cell key) = Some i ∧
              keys_by_value (cell_id_to_index s') !! i = Some (key_cell key) ∧
              cell_indices s' = cell_indices s ++ [i] ∧
              gene_indices s' = gene_indices s ++ [j] ∧
              data s' = data s ++ [1%Z] ∧
              length (cell_indices s) = length (gene_indices s)) as Hstep.
  { intros idx pre s j Hpre Hcur Hj.
    destruct (scan_init_Ok _ _ _ _ _ _ _ Hpre) as (Hnum & _).
    destruct (scan_init_lengths _ _ _ _ _ _ _ Hpre) as (Hr & Hc & _).
    rewrite scan_counted.
    rewrite <- (app_nil_r run), (counted_run _ _ _ _ run key []) by done.
    rewrite decide_False by done. simpl.
    destruct (record_molecule_numbered idx s _ key j Hnum Hj)
      as (s' & i & Hrec & Hnum' & Hi & Hd' & Hr' & Hc' & _).
    rewrite Hrec. simpl. exists s', i. split_and!; try done.
    - by apply (numbered_get _ _ _ _ Hnum').
    - destruct Hnum' as (Hdict & _). by rewrite Hdict, keys_by_value_zip_seq.
    - lia. }
  split_and!.
  - intros r ann pre post Hr. apply from_bam_counted_ext.
    rewrite (counted_app cb ub ge thr pre (run ++ post)).
    rewrite (counted_app cb ub ge thr pre (r :: post)). f_equal.
    rewrite (counted_run _ _ _ _ run key post) by done.
    change (r :: post) with ([r] ++ post).
    rewrite (counted_run _ _ _ _ [r] key post); [done | done |].
    by constructor.
  - intros pre post Honly.
    assert (∀ last_key f, (∀ y, y ∈ f → y ∈ pre ++ post) →
              key ∉ counted cb ub ge thr last_key f) as Habsent.
    { intros last_key f Hsub (y & Hy & Hky)%counted_elem_of.
      by apply (Honly y (Hsub y Hy)). }
    rewrite (counted_app cb ub ge thr pre), occurrences_app.
    rewrite occurrences_absent by (apply Habsent; set_solver).
    rewrite (counted_run _ _ _ _ run key post) by done.
    rewrite decide_False.
    + rewrite occurrences_cons.
      by rewrite occurrences_absent by (apply Habsent; set_solver).
    + destruct (current_after_cases cb ub ge thr pre None)
        as [->|(k & -> & Hk)]; [done|].
      intros [= ->]. apply (Habsent None pre); [set_solver | done].
  - intros idx pre s j Hpre Hcur Hj.
    destruct (Hstep idx pre s j Hpre Hcur Hj)
      as (s' & i & Hs' & Hi & _ & Hr' & Hc' & Hd' & Hlen).
    exists s', i. split_and!; try done.
    rewrite Hr', Hc'. by apply entries_at_snoc.
  - intros ann idx pre M j Hidx HM Hlast Hj Hlt.
    pose proof HM as (idx' & s & coo & Hidx' & Hscan & _)%from_bam_Ok_inv.
    assert (idx' = idx) as -> by congruence.
    destruct (scan_init_Ok _ _ _ _ _ _ _ Hscan) as (_ & _ & _ & _ & Hcur).
    destruct (Hstep idx pre s j Hscan) as
      (s' & i & Hs' & _ & Hlabel & Hr' & Hc' & _ & Hlen);
      [by rewrite Hcur | done |].
    assert (scan idx cb ub ge thr scan_init (pre ++ run) = Ok s') as Hscan'.
    { rewrite scan_app, Hscan. exact Hs'. }
    pose proof (from_bam_after_scan cb ub ge thr _ _ _ _ Hidx Hscan) as Hafter.
    rewrite HM in Hafter.
    destruct (decide (Forall (λ c, c < PyDict.len idx) (gene_indices s)))
      as [Hcols|]; [|done].
    pose proof (from_bam_after_scan cb ub ge thr _ _ _ _ Hidx Hscan')
      as Hafter'.
    rewrite decide_True in Hafter'
      by (rewrite Hc'; apply Forall_app; split; [done | by constructor]).
    set (M' := mkCountMatrix _ _ _) in Hafter'.
    pose proof (from_bam_value cb ub ge thr _ _ _ _ _ HM Hidx Hscan) as HV.
    pose proof (from_bam_value cb ub ge thr _ _ _ _ _ Hafter' Hidx Hscan')
      as HV'.
    rewrite Hr', Hc' in HV'.
    exists M', i. split; [exact Hafter'|].
    assert (csr_get (matrix M') i j = uint32 (csr_get (matrix M) i j + 1))
      as Hincr.
    { rewrite HV', HV, entries_at_snoc by done.
      rewrite uint32_add_l. f_equal. lia. }
    split_and!.
    + exact Hlabel.
    + exact Hincr.
    + intros Hsmall. rewrite Hincr. apply Z.mod_small.
      assert (0 ≤ csr_get (matrix M) i j)%Z
        by (rewrite HV; apply Z.mod_pos_bound; lia).
      lia.
    + intros i' j' Hother.
      by rewrite HV', HV, entries_at_snoc_ne.
Qed.

Lemma contiguous_duplicates_counted_once_witness :
  let pre := [tagged "GeneA" "CellX" "Mol1" 0;
              tagged "GeneB" "CellX" "Mol2" 0] in
  let run := [tagged "GeneA" "CellX" "Mol1" 0;
              tagged "GeneA" "CellX" "Mol1" 0] in
  let M := mkCountMatrix (CsrMatrix 2 [{[ 0 := 1%Z; 1 := 1%Z ]}; ∅])
             ["CellX"] ["GeneA"; "GeneB"] in
  ∃ M' i,
    from_bam (pre ++ run) scenario_annotation "CB" "UB" "GE" 0 = Ok M' ∧
    row_index M' !! i = Some "CellX" ∧
    csr_get (matrix M') i 0 = uint32 (csr_get (matrix M) i 0 + 1) ∧
    ((csr_get (matrix M) i 0 < 2 ^ 32 - 1)%Z →
     csr_get (matrix M') i 0 = (csr_get (matrix M) i 0 + 1)%Z) ∧
    (∀ i' j', (i', j') ≠ (i, 0) →
       csr_get (matrix M') i' j' = csr_get (matrix M) i' j').
Proof.
  intros pre run M.
  refine (proj2 (proj2 (proj2
            (contiguous_duplicates_counted_once "CB" "UB" "GE" 0
               ("GeneA", "CellX", "Mol1") run _ _)))
            scenario_annotation [("GeneA", 0); ("GeneB", 1)] pre M 0
            _ _ _ _ _).
  - discriminate.
  - repeat constructor.
  - vm_compute. reflexivity.
  - vm_compute. reflexivity.
  - vm_compute. discriminate.
  - vm_compute. reflexivity.
  - vm_compute. lia.
Defined.

(** C1 at the concrete scenario of the specification (two genes, four
    valid records, three molecules, cells CellX and CellY): the matrix
    that [from_bam] returns has shape (3, 2), one row for each counted
    molecule, the last of them empty, while there are two row labels and
    two column labels; the shape is not (number of row labels, number of
    column labels) = (2, 2). *)
Theorem scenario_matrix_shape :
  let M := mkCountMatrix
             (CsrMatrix 2 [{[ 0 := 1%Z; 1 := 1%Z ]}; {[ 0 := 1%Z ]}; ∅])
             ["CellX"; "CellY"] ["GeneA"; "GeneB"] in
  from_bam scenario_stream scenario_annotation "CB" "UB" "GE" 0 = Ok M ∧
  csr_shape (matrix M) = (3, 2) ∧
  (length (row_index M), length (col_index M)) = (2, 2) ∧
  csr_shape (matrix M) ≠ (length (row_index M), length (col_index M)).
Proof.
  split_and!; [vm_compute; reflexivity | reflexivity | reflexivity |].
  vm_compute. discriminate.
Qed.

(** ** Persistence *)

Lemma append_inj_l (p a b : string) : p +:+ a = p +:+ b → a = b.
Proof. induction p as [|c p IH]; simpl; [done|]. intros [= ?]. auto. Qed.

Lemma artifact_paths_distinct (prefix : string) :
  prefix +:+ ".npz" ≠ prefix +:+ "_row_index.npy" ∧
  prefix +:+ ".npz" ≠ prefix +:+ "_col_index.npy" ∧
  prefix +:+ "_row_index.npy" ≠ prefix +:+ "_col_index.npy".
Proof. split_and!; by intros ?%append_inj_l. Qed.

Lemma load_npz_save M prefix fs :
  load_npz (save M prefix fs) (prefix +:+ ".npz") = Ok (matrix M).
Proof.
  destruct (artifact_paths_distinct prefix) as (Hr & Hc & _).
  unfold load_npz, save, np_save, save_npz.
  by rewrite !lookup_insert_ne, lookup_insert_eq by done.
Qed.

Lemma np_load_save_row M prefix fs :
  np_load (save M prefix fs) (prefix +:+ "_row_index.npy") = Ok (row_index M).
Proof.
  destruct (artifact_paths_distinct prefix) as (_ & _ & Hrc).
  unfold np_load, save, np_save, save_npz.
  by rewrite lookup_insert_ne, lookup_insert_eq by done.
Qed.

Lemma np_load_save_col M prefix fs :
  np_load (save M prefix fs) (prefix +:+ "_col_index.npy") = Ok (col_index M).
Proof. unfold np_load, save, np_save. by rewrite lookup_insert_eq. Qed.

(** C6: loading what was saved under the same prefix gives the matrix
    back: same stored matrix, same row labels, same column labels, in the
    same order, whatever the file system held before. *)
Theorem load_save_roundtrip (M : CountMatrix) (prefix : string)
    (fs : gmap string file) :
  load (save M prefix fs) prefix = Ok M.
Proof.
  unfold load.
  rewrite load_npz_save, np_load_save_row, np_load_save_col. simpl.
  by destruct M.
Qed.

(** ** Merging *)

Lemma load_Ok fs prefix M :
  load fs prefix = Ok M ↔
  load_npz fs (prefix +:+ ".npz") = Ok (matrix M) ∧
  np_load fs (prefix +:+ "_row_index.npy") = Ok (row_index M) ∧
  np_load fs (prefix +:+ "_col_index.npy") = Ok (col_index M).
Proof.
  unfold load. destruct M as [m r c]. simpl.
  destruct (load_npz fs _) as [m'|]; simpl; [|naive_solver].
  destruct (np_load fs (prefix +:+ "_row_index.npy")) as [r'|]; simpl;
    [|naive_solver].
  destruct (np_load fs (prefix +:+ "_col_index.npy")) as [c'|]; simpl;
    naive_solver.
Qed.

Lemma mapM_Ok {A B} (f : A → result B) (xs : list A) (ys : list B) :
  Forall2 (λ x y, f x = Ok y) xs ys → mapM f xs = Ok ys.
Proof.
  induction 1 as [|x y xs ys Hxy _ IH]; simpl; [done|].
  by rewrite Hxy, IH.
Qed.

(** C7: merging stacks row-wise.  For a non-empty sequence of prefixes
    whose matrices load, have identical column labels and are as wide as
    their column labels are many, [merge_matrices] returns a matrix whose
    rows are the rows of the inputs in input order, so that its row count
    is the sum of theirs and its width is theirs, whose row labels are the
    concatenation of the inputs' row labels in input order and whose column
    labels are those of the first input. *)
Theorem merge_matrices_stacks_rows (fs : gmap string file)
    (input_prefixes : list string) (M0 : CountMatrix) (Ms : list CountMatrix) :
  Forall2 (λ p M, load fs p = Ok M) input_prefixes (M0 :: Ms) →
  Forall (λ M, col_index M = col_index M0) Ms →
  Forall (λ M, csr_cols (matrix M) = length (col_index M)) (M0 :: Ms) →
  ∃ R, merge_matrices fs input_prefixes = Ok R ∧
    csr_shape (matrix R) =
      (sum_list ((λ M, (csr_shape (matrix M)).1) <$> M0 :: Ms),
       (csr_shape (matrix M0)).2) ∧
    csr_rows (matrix R) = concat ((λ M, csr_rows (matrix M)) <$> M0 :: Ms) ∧
    row_index R = concat (row_index <$> M0 :: Ms) ∧
    col_index R = col_index M0.
Proof.
  intros Hload Hlabels Hwide.
  assert (Forall (λ b, csr_cols b = csr_cols (matrix M0)) (matrix <$> Ms))
    as Hwidth.
  { apply Forall_cons in Hwide as [Hw0 Hwide]. apply Forall_fmap.
    apply Forall_forall. intros M HM. simpl.
    rewrite Forall_forall in Hwide, Hlabels.
    by rewrite (Hwide M HM), (Hlabels M HM). }
  unfold merge_matrices.
  rewrite (mapM_Ok (λ p, np_load fs (p +:+ "_col_index.npy")) _
             (col_index <$> M0 :: Ms)).
  2:{ apply Forall2_fmap_r. eapply Forall2_impl; [exact Hload|].
      intros p M HM. by apply load_Ok in HM as (_ & _ & ?). }
  rewrite (mapM_Ok (λ p, np_load fs (p +:+ "_row_index.npy")) _
             (row_index <$> M0 :: Ms)).
  2:{ apply Forall2_fmap_r. eapply Forall2_impl; [exact Hload|].
      intros p M HM. by apply load_Ok in HM as (_ & ? & _). }
  rewrite (mapM_Ok (λ p, load_npz fs (p +:+ ".npz")) _
             (matrix <$> M0 :: Ms)).
  2:{ apply Forall2_fmap_r. eapply Forall2_impl; [exact Hload|].
      intros p M HM. by apply load_Ok in HM as (? & _ & _). }
  simpl. rewrite decide_True by done. simpl.
  eexists. split; [done|]. simpl. split_and!; try done.
  - unfold csr_shape. simpl. f_equal.
    rewrite length_app, length_concat. f_equal.
    rewrite <- !list_fmap_compose. done.
  - by rewrite <- list_fmap_compose.
Qed.

Lemma merge_matrices_stacks_rows_witness :
  ∃ R, merge_matrices two_shards ["a"; "b"] = Ok R ∧
    csr_shape (matrix R) = (5, 2) ∧
    row_index R = ["CellX"; "CellY"; "CellP"; "CellQ"; "CellR"] ∧
    col_index R = ["GeneA"; "GeneB"].
Proof.
  destruct (merge_matrices_stacks_rows two_shards ["a"; "b"]
              two_rows [three_rows])
    as (R & HR & Hshape & _ & Hrows & Hcols).
  - constructor; [vm_compute; reflexivity|].
    constructor; [vm_compute; reflexivity|]. constructor.
  - repeat constructor.
  - repeat constructor.
  - exists R. split; [done|]. by rewrite Hshape, Hrows, Hcols.
Defined.

(** ** Labels read by [from_mtx] *)

Lemma readlines_concat s : foldr String.append EmptyString (readlines s) = s.
Proof.
  induction s as [|c s IH]; simpl; [done|].
  case_decide; simpl; [rewrite IH; reflexivity|].
  destruct (readlines s) as [|line lines]; simpl in *; rewrite <- IH;
    reflexivity.
Qed.

Lemma terminated_cons c line : c ≠ LF → terminated line → terminated (String c line).
Proof. intros Hc (body & -> & Hbody). by exists (String c body). Qed.

Lemma terminated_not_newline_free line : terminated line → ¬ newline_free line.
Proof.
  intros (body & -> & _). induction body as [|c body IH]; simpl.
  - by intros [? _].
  - intros [_ ?]. auto.
Qed.

(** Every line that [readlines] returns ends with its only line feed,
    except that the last one may have none. *)
Lemma readlines_lines s : ∀ i line,
  readlines s !! i = Some line →
  terminated line ∨
  (S i = length (readlines s) ∧ newline_free line ∧ line ≠ EmptyString).
Proof.
  induction s as [|c s IH]; intros i line; simpl; [done|].
  case_decide as Hc.
  - subst c. destruct i as [|i]; simpl.
    + intros [= <-]. left. exists EmptyString. split; [reflexivity | exact I].
    + intros Hi. destruct (IH i line Hi) as [?|(? & ? & ?)]; [by left|].
      right. split_and!; [lia | done..].
  - destruct (readlines s) as [|l ls] eqn:E.
    + destruct i as [|i]; simpl; [|done].
      intros [= <-]. right. by split_and!.
    + destruct i as [|i]; simpl.
      * intros [= <-]. destruct (IH 0 l eq_refl) as [?|(Hlen & ? & ?)].
        -- left. by apply terminated_cons.
        -- right. simpl in *. by split_and!.
      * intros Hi. destruct (IH (S i) line Hi) as [?|(? & ? & ?)]; [by left|].
        right. simpl in *. by split_and!.
Qed.

Lemma readlines_nil s : readlines s = [] → s = EmptyString.
Proof.
  destruct s as [|c s]; simpl; [done|].
  case_decide; [done|]. by destruct (readlines s).
Qed.

(** When the text ends with a line feed, the last line has one too. *)
Lemma readlines_all_terminated body :
  Forall terminated (readlines (body +:+ String LF EmptyString)).
Proof.
  induction body as [|c body IH].
  - repeat constructor. exists EmptyString. split; [reflexivity | exact I].
  - change (String c body +:+ String LF EmptyString)
      with (String c (body +:+ String LF EmptyString)).
    simpl. case_decide as Hc.
    + subst c. constructor; [|done].
      exists EmptyString. split; [reflexivity | exact I].
    + destruct (readlines (body +:+ String LF EmptyString))
        as [|line lines] eqn:E.
      * apply readlines_nil in E. by destruct body.
      * apply Forall_cons in IH as [Hline Hlines].
        constructor; [by apply terminated_cons | done].
Qed.

(** Text mode delivers a final line feed or carriage return as a line
    feed. *)
Lemma universal_newlines_line_end_aux e body :
  e = LF ∨ e = CR →
  (∃ b, universal_newlines (body +:+ String e EmptyString)
        = b +:+ String LF EmptyString) ∧
  ∀ c, ∃ b, universal_newlines (String c (body +:+ String e EmptyString))
            = b +:+ String LF EmptyString.
Proof.
  intros He. induction body as [|c0 body [IH1 IH2]].
  - change (EmptyString +:+ String e EmptyString) with (String e EmptyString).
    split.
    + exists EmptyString. by destruct He as [-> | ->].
    + intros c. destruct (decide (c = CR)) as [-> | Hc].
      * destruct He as [-> | ->];
          [by exists EmptyString | by exists (String LF EmptyString)].
      * exists (String c EmptyString).
        change (universal_newlines (String c (String e EmptyString)))
          with (if decide (c = CR)
                then String LF (if decide (e = LF) then EmptyString
                                else universal_newlines (String e EmptyString))
                else String c (universal_newlines (String e EmptyString))).
        rewrite decide_False by done. by destruct He as [-> | ->].
  - change (String c0 body +:+ String e EmptyString)
      with (String c0 (body +:+ String e EmptyString)).
    split; [apply IH2|]. intros c.
    change (universal_newlines
              (String c (String c0 (body +:+ String e EmptyString))))
      with (if decide (c = CR)
            then String LF
                   (if decide (c0 = LF)
                    then universal_newlines (body +:+ String e EmptyString)
                    else universal_newlines
                           (String c0 (body +:+ String e EmptyString)))
            else String c
                   (universal_newlines
                      (String c0 (body +:+ String e EmptyString)))).
    case_decide.
    + case_decide.
      * destruct IH1 as [b ->]. by exists (String LF b).
      * destruct (IH2 c0) as [b ->]. by exists (String LF b).
    + destruct (IH2 c0) as [b ->]. by exists (String c b).
Qed.

Lemma universal_newlines_line_end content :
  ends_with_line_end content →
  ∃ b, universal_newlines content = b +:+ String LF EmptyString.
Proof.
  intros (body & e & -> & He).
  by destruct (universal_newlines_line_end_aux e body He) as [? _].
Qed.

(** A line that ends with a line feed is kept whole by [np.array]. *)
Lemma strip_terminated line :
  terminated line → strip_trailing_nuls line = line.
Proof.
  intros (body & -> & _). induction body as [|c body IH].
  - reflexivity.
  - change (String c body +:+ String LF EmptyString)
      with (String c (body +:+ String LF EmptyString)).
    simpl. rewrite IH.
    by destruct (body +:+ String LF EmptyString) eqn:E; [destruct body|].
Qed.

Lemma strip_newline_free s :
  newline_free s → newline_free (strip_trailing_nuls s).
Proof.
  induction s as [|c s IH]; simpl; [done|]. intros [Hc Hs].
  specialize (IH Hs).
  destruct (strip_trailing_nuls s); [case_decide; simpl; done|].
  by split.
Qed.

Lemma read_index_file_Ok fs path labels :
  read_index_file fs path = Ok labels ↔
  ∃ content, fs !! path = Some (TextFile content) ∧
             labels = np_array (readlines (universal_newlines content)).
Proof.
  unfold read_index_file.
  destruct (fs !! path) as [[| | |content]|]; try naive_solver.
Qed.

(** The labels of a file, one by one: a label is the whole line when the
    line ends with a line feed, which every line does except the last line
    of a text that does not end with a line end. *)
Lemma read_index_file_lines fs path content labels i label :
  fs !! path = Some (TextFile content) →
  read_index_file fs path = Ok labels →
  labels !! i = Some label →
  S i < length labels ∨ ends_with_line_end content →
  terminated label.
Proof.
  intros Hpath (content' & Hpath' & ->)%read_index_file_Ok Hi Hwhere.
  assert (content' = content) as -> by congruence.
  unfold np_array in *. rewrite length_fmap in Hwhere.
  apply list_lookup_fmap_Some in Hi as (line & -> & Hline).
  assert (terminated line) as Hterm.
  { destruct Hwhere as [Hlt|Hend].
    - destruct (readlines_lines _ _ _ Hline) as [?|(? & _)]; [done | lia].
    - apply universal_newlines_line_end in Hend as [b Hb].
      rewrite Hb in Hline.
      pose proof (readlines_all_terminated b) as Hall.
      rewrite Forall_forall in Hall. apply Hall.
      by eapply list_elem_of_lookup_2. }
  by rewrite strip_terminated.
Qed.

(** C10, as amended: the labels of [from_mtx] are the raw lines of the
    label files.  Every label, except the last label of a file that does
    not end with a line end, is an identifier followed by the line feed
    that ended its line, and therefore differs from that identifier and
    from every string without line feed, such as the label [from_bam]
    gives the identifier.  This holds for the last label too when the file
    ends with a line feed or a carriage return. *)
Theorem from_mtx_labels_keep_newline (fs : gmap string file)
    (matrix_mtx row_index_file col_index_file : string) (M : CountMatrix)
    (path content : string) (labels : list string) (i : nat)
    (label : string) :
  from_mtx fs matrix_mtx row_index_file col_index_file = Ok M →
  (path = row_index_file ∧ labels = row_index M) ∨
  (path = col_index_file ∧ labels = col_index M) →
  fs !! path = Some (TextFile content) →
  labels !! i = Some label →
  S i < length labels ∨ ends_with_line_end content →
  ∃ identifier,
    label = identifier +:+ String LF EmptyString ∧
    newline_free identifier ∧
    label ≠ identifier ∧
    ∀ other, newline_free other → label ≠ other.
Proof.
  unfold from_mtx. intros HM Hwhich Hpath Hi Hwhere.
  destruct (mmread fs matrix_mtx) as [coo|]; simpl in HM; [|done].
  destruct (read_index_file fs row_index_file) as [rows|] eqn:Hrows;
    simpl in HM; [|done].
  destruct (read_index_file fs col_index_file) as [cols|] eqn:Hcols;
    simpl in HM; [|done].
  injection HM as <-. simpl in Hwhich.
  assert (terminated label) as Hterm.
  { destruct Hwhich as [[-> ->]|[-> ->]];
      eauto using read_index_file_lines. }
  destruct Hterm as (identifier & Hlabel & Hfree).
  assert (∀ other, newline_free other → label ≠ other) as Hne.
  { intros other Hother <-.
    apply (terminated_not_newline_free label); [|done].
    by exists identifier. }
  exists identifier. split_and!; auto.
Qed.

Lemma from_mtx_labels_keep_newline_witness :
  ∃ identifier,
    "GeneB" +:+ String LF EmptyString = identifier +:+ String LF EmptyString ∧
    newline_free identifier ∧
    "GeneB" +:+ String LF EmptyString ≠ identifier ∧
    ∀ other, newline_free other → "GeneB" +:+ String LF EmptyString ≠ other.
Proof.
  refine (from_mtx_labels_keep_newline scenario_files
            "counts.mtx" "rows.txt" "cols.txt"
            (mkCountMatrix
               (tocsr_as intp
                  (CooMatrix (2, 2) [0; 0; 1] [0; 1; 0] [1; 1; 1]%Z))
               ["CellX" +:+ String LF EmptyString; "CellY"]
               ["GeneA" +:+ String LF EmptyString;
                "GeneB" +:+ String LF EmptyString])
            "cols.txt"
            ("GeneA" +:+ String LF ("GeneB" +:+ String LF ""))
            ["GeneA" +:+ String LF EmptyString;
             "GeneB" +:+ String LF EmptyString]
            1 ("GeneB" +:+ String LF EmptyString) _ _ _ _ _).
  - vm_compute. reflexivity.
  - right. split; reflexivity.
  - vm_compute. reflexivity.
  - reflexivity.
  - right. exists ("GeneA" +:+ String LF "GeneB"), LF.
    split; [reflexivity | by left].
Defined.

(** C10 as stated fails for the last line of a label file that does not
    end with a line feed: [from_mtx] reads the label [CellY] without a line
    feed, the very label [from_bam] gives that cell. *)
Lemma from_mtx_last_label_without_newline :
  ∃ M M',
    from_mtx scenario_files "counts.mtx" "rows.txt" "cols.txt" = Ok M ∧
    from_bam scenario_stream scenario_annotation "CB" "UB" "GE" 0 = Ok M' ∧
    row_index M = ["CellX" +:+ String LF EmptyString; "CellY"] ∧
    row_index M' = ["CellX"; "CellY"] ∧
    row_index M !! 1 = row_index M' !! 1.
Proof.
  eexists _, _. split; [vm_compute; reflexivity|].
  split; [vm_compute; reflexivity|].
  split_and!; reflexivity.
Qed.

(** * Further properties of the code *)

(** ** The gene index, in general *)

Lemma gene_index_loop_raise records : ∀ i d,
  Exists (λ r, get_attribute r "gene_name" = None) records →
  gene_index_loop i records d = Raise ValueError.
Proof.
  induction records as [|r records IH]; intros i d Hex;
    [by apply Exists_nil in Hex|].
  simpl. destruct (get_attribute r "gene_name") as [g|] eqn:Hg; [|done].
  apply Exists_cons in Hex as [Hr|Hex]; [congruence|]. by apply IH.
Qed.

Lemma gene_index_loop_Ok_names records : ∀ i d idx,
  gene_index_loop i records d = Ok idx →
  Forall (λ r, is_Some (get_attribute r "gene_name")) records.
Proof.
  induction records as [|r records IH]; intros i d idx; simpl; [by constructor|].
  destruct (get_attribute r "gene_name") as [g|] eqn:Hg; [|done].
  intros Hok. constructor; [by rewrite Hg | by eapply IH].
Qed.

Lemma last_position_snoc pre g0 g i :
  last_position (pre ++ [g0]) g i ↔
  if decide (g = g0) then i = length pre else last_position pre g i.
Proof.
  unfold last_position. case_decide as Hg; [subst g|].
  - split.
    + intros [Hi Hlast].
      destruct (decide (i < length pre)) as [Hlt|Hge].
      * exfalso. apply (Hlast (length pre) Hlt).
        by rewrite lookup_app_r, Nat.sub_diag.
      * apply lookup_lt_Some in Hi. rewrite length_app in Hi. simpl in Hi. lia.
    + intros ->. split.
      * by rewrite lookup_app_r, Nat.sub_diag.
      * intros j Hj. rewrite lookup_ge_None_2; [done|].
        rewrite length_app. simpl. lia.
  - split.
    + intros [Hi Hlast].
      assert (i < length pre) as Hlt.
      { destruct (decide (i < length pre)) as [|Hge]; [done|].
        rewrite lookup_app_r in Hi by lia.
        destruct (i - length pre) as [|n]; simpl in Hi; [congruence | done]. }
      rewrite lookup_app_l in Hi by done. split; [done|].
      intros j Hj Hpre. apply (Hlast j Hj).
      by apply lookup_app_l_Some.
    + intros [Hi Hlast].
      split; [by apply lookup_app_l_Some|].
      intros j Hj Hj'.
      destruct (decide (j < length pre)) as [Hlt|Hge].
      * rewrite lookup_app_l in Hj' by done. by apply (Hlast j).
      * rewrite lookup_app_r in Hj' by lia.
        destruct (j - length pre) as [|n]; simpl in Hj'; [congruence | done].
Qed.

Lemma gene_index_loop_last records : ∀ names pre d,
  Forall2 (λ r g, get_attribute r "gene_name" = Some g) records names →
  (∀ g i, PyDict.get d g = Some i ↔ last_position pre g i) →
  ∃ idx, gene_index_loop (length pre) records d = Ok idx ∧
    ∀ g i, PyDict.get idx g = Some i ↔ last_position (pre ++ names) g i.
Proof.
  induction records as [|r records IH]; intros names pre d Hnames Hd.
  - apply Forall2_nil_inv_l in Hnames as ->. exists d.
    by rewrite app_nil_r.
  - apply Forall2_cons_inv_l in Hnames as (g0 & names' & Hg0 & Hrest & ->).
    simpl. rewrite Hg0.
    destruct (IH names' (pre ++ [g0])
                (PyDict.setitem d g0 (length pre)) Hrest) as (idx & Hidx & Hlast).
    + intros g i. rewrite get_setitem, last_position_snoc.
      case_decide; [|apply Hd]. split; [by intros [= <-] | by intros ->].
    + exists idx. rewrite length_app in Hidx. simpl in Hidx.
      rewrite Nat.add_1_r in Hidx. split; [done|].
      intros g i. rewrite Hlast, <- app_assoc. done.
Qed.

(** X1: an annotation with a record of type gene that has no [gene_name]
    is fatal: [from_bam] raises [ValueError] whatever the alignment stream
    and the parameters are, before any alignment record is looked at. *)
Theorem annotation_gene_without_name_is_fatal (ann : list gtf_record)
    (r : gtf_record) (stream : list sam_record) (cb ub ge : string) (thr : Z) :
  r ∈ ann → feature_type r = "gene" → get_attribute r "gene_name" = None →
  from_bam stream ann cb ub ge thr = Raise ValueError.
Proof.
  intros Hin Htype Hname. unfold from_bam, build_gene_index.
  rewrite gene_index_loop_raise; [done|].
  apply Exists_exists. exists r. split; [|done].
  apply list_elem_of_filter. split; [|done].
  rewrite Htype. left.
Qed.

Lemma annotation_gene_without_name_is_fatal_witness :
  from_bam scenario_stream [gene_record "GeneA"; GtfRecord "gene" ∅]
    "CB" "UB" "GE" 0 = Raise ValueError.
Proof.
  apply (annotation_gene_without_name_is_fatal _ (GtfRecord "gene" ∅)).
  - right. left.
  - reflexivity.
  - reflexivity.
Defined.

(** X2: whenever the gene index is built, every record of type gene has a
    [gene_name], and a name maps to the position, among the records of type
    gene, of the last record that carries it. *)
Theorem gene_index_maps_name_to_last_record (ann : list gtf_record)
    (idx : list (string * nat)) :
  build_gene_index ann = Ok idx →
  length (gene_names ann) = length (gtf_filter ["gene"] ann) ∧
  ∀ g i, PyDict.get idx g = Some i ↔ last_position (gene_names ann) g i.
Proof.
  unfold build_gene_index. intros Hok.
  pose proof (gene_names_Forall2 ann (gene_index_loop_Ok_names _ _ _ _ Hok))
    as Hnames.
  split; [symmetry; by eapply Forall2_length|].
  destruct (gene_index_loop_last _ (gene_names ann) [] [] Hnames)
    as (idx' & Hidx' & Hlast).
  - intros g i. unfold last_position. simpl. split; [done | by intros [? _]].
  - simpl in Hidx'. rewrite Hok in Hidx'. by simplify_eq.
Qed.

Lemma gene_index_maps_name_to_last_record_witness :
  PyDict.get [("A", 2); ("B", 1)] "A" = Some 2 ↔
  last_position
    (gene_names [gene_record "A"; gene_record "B"; gene_record "A"]) "A" 2.
Proof.
  refine (proj2 (gene_index_maps_name_to_last_record
                   [gene_record "A"; gene_record "B"; gene_record "A"]
                   [("A", 2); ("B", 1)] _) "A" 2).
  vm_compute. reflexivity.
Defined.

(** ** Labels of the matrix of [from_bam] *)

Lemma setitem_keys_present {V} (d : list (string * V)) k v :
  k ∈ d.*1 → (PyDict.setitem d k v).*1 = d.*1.
Proof.
  induction d as [|[k' v'] d IH]; simpl; [by intros ?%elem_of_nil|].
  case_decide; [by subst|]. intros [?|?]%elem_of_cons; [done|].
  simpl. f_equal. auto.
Qed.

Lemma setitem_keys_NoDup {V} (d : list (string * V)) k v :
  NoDup d.*1 → NoDup (PyDict.setitem d k v).*1.
Proof.
  intros Hnd. destruct (decide (k ∈ d.*1)) as [Hin|Hout].
  - by rewrite setitem_keys_present.
  - rewrite setitem_fresh by (by apply get_None).
    rewrite fmap_app. apply NoDup_app. split_and!; [done | | apply NoDup_singleton].
    by intros x Hx ->%list_elem_of_singleton.
Qed.

Lemma gene_index_loop_keys_NoDup records : ∀ i d idx,
  NoDup d.*1 → gene_index_loop i records d = Ok idx → NoDup idx.*1.
Proof.
  induction records as [|r records IH]; intros i d idx Hnd; simpl.
  - by intros [= <-].
  - destruct (get_attribute r "gene_name") as [g|]; [|done].
    apply IH. by apply setitem_keys_NoDup.
Qed.

Lemma insert_by_value_Permutation {K} (x : K * nat) l :
  insert_by_value x l ≡ₚ x :: l.
Proof.
  induction l as [|y l IH]; simpl; [done|].
  case_decide; [done|]. rewrite IH. apply Permutation_swap.
Qed.

Lemma sorted_by_value_Permutation {K} (l : list (K * nat)) :
  sorted_by_value l ≡ₚ l.
Proof.
  induction l as [|x l IH]; simpl; [done|].
  by rewrite insert_by_value_Permutation, IH.
Qed.

Lemma keys_by_value_Permutation {K} (d : list (K * nat)) :
  keys_by_value d ≡ₚ d.*1.
Proof.
  unfold keys_by_value, PyDict.items. by rewrite sorted_by_value_Permutation.
Qed.

(** X3: in every matrix that [from_bam] returns the row labels are
    pairwise distinct and the column labels are pairwise distinct, and the
    column labels are exactly the gene names of the annotation, also when
    a name occurs on several records. *)
Theorem from_bam_labels_are_unique (cb ub ge : string) (thr : Z)
    (stream : list sam_record) (ann : list gtf_record) (M : CountMatrix) :
  from_bam stream ann cb ub ge thr = Ok M →
  NoDup (row_index M) ∧ NoDup (col_index M) ∧
  ∀ g, g ∈ col_index M ↔ g ∈ gene_names ann.
Proof.
  intros (idx & s & coo & Hidx & Hscan & _ & ->)%from_bam_Ok_inv. simpl.
  destruct (scan_init_Ok _ _ _ _ _ _ _ Hscan) as ((Hd & _ & Hnd) & _).
  split_and!.
  - by rewrite Hd, keys_by_value_zip_seq.
  - rewrite keys_by_value_Permutation.
    eapply gene_index_loop_keys_NoDup; [|exact Hidx]. constructor.
  - intros g. rewrite keys_by_value_Permutation.
    assert (∀ g i, PyDict.get idx g = Some i ↔
                   last_position (gene_names ann) g i) as Hlast.
    { unfold build_gene_index in Hidx.
      pose proof (gene_names_Forall2 ann
                    (gene_index_loop_Ok_names _ _ _ _ Hidx)) as Hnames.
      destruct (gene_index_loop_last _ (gene_names ann) [] [] Hnames)
        as (idx' & Hidx' & Hlast).
      - intros g' i. unfold last_position. simpl.
        split; [done | by intros [? _]].
      - simpl in Hidx'. rewrite Hidx in Hidx'. by simplify_eq. }
    split.
    + intros Hin. destruct (PyDict.get idx g) as [i|] eqn:Hg.
      * apply Hlast in Hg as [Hg _]. by eapply list_elem_of_lookup_2.
      * by apply get_None in Hg.
    + intros Hin. destruct (PyDict.get idx g) as [i|] eqn:Hg.
      * apply get_Some_elem_of in Hg.
        apply list_elem_of_fmap. by exists (g, i).
      * exfalso. 
        assert (∃ i, last_position (gene_names ann) g i) as [i Hi].
        { clear -Hin. induction (gene_names ann) as [|g0 names IH]
            using rev_ind; [by apply elem_of_nil in Hin|].
          destruct (decide (g = g0)) as [->|Hne].
          - exists (length names). apply last_position_snoc.
            by rewrite decide_True.
          - apply elem_of_app in Hin as [Hin|Hin%list_elem_of_singleton];
              [|done].
            destruct (IH Hin) as [i Hi]. exists i.
            apply last_position_snoc. by rewrite decide_False. }
        apply Hlast in Hi. congruence.
Qed.

Lemma from_bam_labels_are_unique_witness :
  ∃ M, from_bam [tagged "B" "CellX" "Mol1" 0]
         [gene_record "A"; gene_record "B"; gene_record "A"]
         "CB" "UB" "GE" 0 = Ok M ∧
       NoDup (row_index M) ∧ NoDup (col_index M).
Proof.
  destruct (from_bam [tagged "B" "CellX" "Mol1" 0]
              [gene_record "A"; gene_record "B"; gene_record "A"]
              "CB" "UB" "GE" 0) as [M|e] eqn:HM;
    [|vm_compute in HM; discriminate].
  exists M. split; [done|].
  destruct (from_bam_labels_are_unique _ _ _ _ _ _ _ HM) as (? & ? & _).
  done.
Defined.

(** X4: when the gene names of the annotation are pairwise distinct, the
    column labels of the matrix of [from_bam] are the gene names in
    annotation order, one for every record of type gene, whether or not
    any molecule of the gene was counted. *)
Theorem column_labels_in_annotation_order (cb ub ge : string) (thr : Z)
    (stream : list sam_record) (ann : list gtf_record) (M : CountMatrix) :
  from_bam stream ann cb ub ge thr = Ok M →
  NoDup (gene_names ann) →
  col_index M = gene_names ann ∧
  length (col_index M) = length (gtf_filter ["gene"] ann).
Proof.
  intros (idx & s & coo & Hidx & _ & _ & ->)%from_bam_Ok_inv Hnd. simpl.
  pose proof (gene_index_loop_Ok_names _ _ _ _ Hidx) as Hall.
  rewrite (build_gene_index_distinct ann Hall Hnd) in Hidx.
  injection Hidx as <-. rewrite keys_by_value_zip_seq.
  split; [done|]. symmetry. eapply Forall2_length.
  by apply gene_names_Forall2.
Qed.

Lemma column_labels_in_annotation_order_witness :
  ∃ M, from_bam [tagged "GeneB" "CellX" "Mol1" 0] scenario_annotation
         "CB" "UB" "GE" 0 = Ok M ∧
       col_index M = ["GeneA"; "GeneB"].
Proof.
  destruct (from_bam [tagged "GeneB" "CellX" "Mol1" 0] scenario_annotation
              "CB" "UB" "GE" 0) as [M|e] eqn:HM;
    [|vm_compute in HM; discriminate].
  exists M. split; [done|].
  assert (NoDup (gene_names scenario_annotation)) as Hnd
    by (apply (bool_decide_unpack _); vm_compute; exact I).
  rewrite (proj1 (column_labels_in_annotation_order _ _ _ _ _ _ _ HM Hnd)).
  reflexivity.
Defined.

(** ** When [from_bam] returns, and what it raises *)

Lemma entries_at_molecules labels idx keys : ∀ rows cols i j,
  NoDup labels →
  Forall2 (λ k r, labels !! r = Some (key_cell k)) keys rows →
  Forall2 (λ k c, PyDict.get idx (key_gene k) = Some c) keys cols →
  entries_at rows cols i j = molecules_at labels idx keys i j.
Proof.
  unfold entries_at, molecules_at. intros rows cols i j Hnd Hrows.
  revert cols. induction Hrows as [|k r keys rows Hr _ IH]; intros cols Hcols.
  - by apply Forall2_nil_inv_l in Hcols as ->.
  - apply Forall2_cons_inv_l in Hcols as (c & cols' & Hc & Hcols & ->).
    simpl. destruct (decide ((r, c) = (i, j))) as [[= -> ->]|Hne].
    + rewrite !filter_cons_True by done. simpl. f_equal. by apply IH.
    + rewrite !filter_cons_False; [by apply IH | | done].
      intros [Hi Hj]. apply Hne. f_equal; [|congruence].
      by eapply NoDup_lookup.
Qed.

Lemma entries_at_out_of_columns rows cols i j :
  Forall (λ c, c < j) cols → entries_at rows cols i j = 0.
Proof.
  unfold entries_at. revert cols.
  induction rows as [|r rows IH]; intros [|c cols] Hall; simpl; try done.
  apply Forall_cons in Hall as [Hc Hall].
  rewrite filter_cons_False by (intros [= _ ->]; lia). by apply IH.
Qed.

Section from_bam_outcome.
Variables cb ub ge : string.
Variable thr : Z.

Lemma scan_init_total idx stream :
  Forall (λ k, is_Some (PyDict.get idx (key_gene k)))
         (counted cb ub ge thr None stream) →
  ∃ s, scan idx cb ub ge thr scan_init stream = Ok s.
Proof.
  intros Hknown. rewrite scan_counted. simpl.
  destruct (record_all_numbered idx _ scan_init [] scan_init_numbered Hknown)
    as (s & _ & _ & Hs & _).
  by exists s.
Qed.
End from_bam_outcome.

(** X5: with the gene index built, [from_bam] raises [KeyError] exactly
    when the gene of some counted molecule has no entry in the index; no
    other condition makes it raise [KeyError]. *)
Theorem from_bam_raises_KeyError_iff (cb ub ge : string) (thr : Z)
    (stream : list sam_record) (ann : list gtf_record)
    (idx : list (string * nat)) :
  build_gene_index ann = Ok idx →
  from_bam stream ann cb ub ge thr = Raise KeyError ↔
  ∃ k, k ∈ counted cb ub ge thr None stream ∧
       PyDict.get idx (key_gene k) = None.
Proof.
  intros Hidx. split.
  - intros Hraise.
    destruct (decide (Exists (λ k, PyDict.get idx (key_gene k) = None)
                        (counted cb ub ge thr None stream))) as [Hex|Hall].
    + by apply Exists_exists in Hex.
    + exfalso. apply not_Exists_Forall in Hall; [|apply _].
      assert (Forall (λ k, is_Some (PyDict.get idx (key_gene k)))
                (counted cb ub ge thr None stream)) as Hknown.
      { eapply Forall_impl; [exact Hall|]. simpl. intros k Hk.
        by destruct (PyDict.get idx (key_gene k)); [eexists|]. }
      destruct (scan_init_total cb ub ge thr idx stream Hknown) as [s Hs].
      rewrite (from_bam_after_scan _ _ _ _ _ _ _ s Hidx Hs) in Hraise.
      by case_decide.
  - intros Hex. unfold from_bam. rewrite Hidx. simpl.
    rewrite scan_counted. simpl. rewrite record_all_unknown; [done|].
    by apply Exists_exists.
Qed.

Lemma from_bam_raises_KeyError_iff_witness :
  from_bam [tagged "GeneZ" "CellX" "Mol1" 0] scenario_annotation
    "CB" "UB" "GE" 0 = Raise KeyError ↔
  ∃ k, k ∈ counted "CB" "UB" "GE" 0 None [tagged "GeneZ" "CellX" "Mol1" 0] ∧
       PyDict.get [("GeneA", 0); ("GeneB", 1)] (key_gene k) = None.
Proof.
  apply (from_bam_raises_KeyError_iff "CB" "UB" "GE" 0).
  vm_compute. reflexivity.
Defined.

(** X6: when the gene names of the annotation are pairwise distinct,
    [from_bam] returns a matrix exactly when every record of type gene has
    a [gene_name] and the gene of every counted molecule is one of the
    gene names. *)
Theorem from_bam_returns_iff (cb ub ge : string) (thr : Z)
    (stream : list sam_record) (ann : list gtf_record) :
  NoDup (gene_names ann) →
  (∃ M, from_bam stream ann cb ub ge thr = Ok M) ↔
  Forall (λ r, is_Some (get_attribute r "gene_name"))
         (gtf_filter ["gene"] ann) ∧
  ∀ k, k ∈ counted cb ub ge thr None stream → key_gene k ∈ gene_names ann.
Proof.
  intros Hnd. split.
  - intros [M (idx & s & coo & Hidx & Hscan & _ & _)%from_bam_Ok_inv].
    pose proof (gene_index_loop_Ok_names _ _ _ _ Hidx) as Hall.
    split; [done|]. intros k Hk.
    rewrite (build_gene_index_distinct ann Hall Hnd) in Hidx.
    injection Hidx as <-.
    rewrite scan_counted in Hscan. simpl in Hscan.
    apply record_all_Ok_known in Hscan.
    rewrite Forall_forall in Hscan. destruct (Hscan k Hk) as [j Hj].
    apply get_zip_seq in Hj as [_ Hj]; [|done].
    by eapply list_elem_of_lookup_2.
  - intros [Hall Hgenes].
    pose proof (build_gene_index_distinct ann Hall Hnd) as Hidx.
    set (idx := zip (gene_names ann) (seq 0 (length (gene_names ann)))) in *.
    assert (∀ g j, PyDict.get idx g = Some j → j < PyDict.len idx) as Hbound.
    { intros g j [_ Hj]%get_zip_seq; [|done].
      apply lookup_lt_Some in Hj. unfold PyDict.len, idx.
      rewrite length_zip_with, length_seq. lia. }
    assert (Forall (λ k, is_Some (PyDict.get idx (key_gene k)))
              (counted cb ub ge thr None stream)) as Hknown.
    { apply Forall_forall. intros k Hk.
      destruct (list_elem_of_lookup_1 _ _ (Hgenes k Hk)) as [j Hj].
      exists j. apply get_zip_seq; [done|].
      split; [lia|]. by rewrite Nat.sub_0_r. }
    destruct (scan_init_total cb ub ge thr idx stream Hknown) as [s Hs].
    rewrite (from_bam_after_scan _ _ _ _ _ _ _ s Hidx Hs).
    destruct (scan_init_Ok _ _ _ _ _ _ _ Hs) as (_ & _ & _ & Hcols & _).
    rewrite decide_True; [by eexists|].
    eapply Forall2_Forall_r; [exact Hcols|].
    apply Forall_forall. intros k _ j Hj. by eapply Hbound.
Qed.

Lemma from_bam_returns_iff_witness :
  (∃ M, from_bam scenario_stream scenario_annotation "CB" "UB" "GE" 0 = Ok M) ↔
  Forall (λ r, is_Some (get_attribute r "gene_name"))
         (gtf_filter ["gene"] scenario_annotation) ∧
  ∀ k, k ∈ counted "CB" "UB" "GE" 0 None scenario_stream →
       key_gene k ∈ gene_names scenario_annotation.
Proof.
  apply (from_bam_returns_iff "CB" "UB" "GE" 0).
  apply (bool_decide_unpack _). vm_compute. exact I.
Defined.

(** ** What the matrix of [from_bam] holds *)

(** X7: the value of the matrix at row [i] and column [j] is, as a
    [uint32], the number of counted molecules whose cell barcode is the
    [i]-th row label and whose gene has index [j]. *)
Theorem from_bam_counts_molecules (cb ub ge : string) (thr : Z)
    (stream : list sam_record) (ann : list gtf_record)
    (idx : list (string * nat)) (M : CountMatrix) :
  from_bam stream ann cb ub ge thr = Ok M →
  build_gene_index ann = Ok idx →
  ∀ i j, csr_get (matrix M) i j =
         uint32 (Z.of_nat (molecules_at (row_index M) idx
                             (counted cb ub ge thr None stream) i j)).
Proof.
  intros HM Hidx i j.
  destruct (from_bam_Ok_inv _ _ _ _ _ _ _ HM)
    as (idx' & s & coo & Hidx' & Hscan & _ & HMeq).
  assert (idx' = idx) as -> by congruence.
  rewrite (from_bam_value _ _ _ _ _ _ _ _ _ HM Hidx Hscan).
  destruct (scan_init_Ok _ _ _ _ _ _ _ Hscan)
    as ((Hd & _ & Hnd) & _ & Hrows & Hcols & _).
  rewrite HMeq. simpl. rewrite Hd, keys_by_value_zip_seq.
  by rewrite (entries_at_molecules _ idx _ _ _ i j Hnd Hrows Hcols).
Qed.

Lemma from_bam_counts_molecules_witness :
  csr_get (CsrMatrix 2 [{[ 0 := 1%Z; 1 := 1%Z ]}; {[ 0 := 1%Z ]}; ∅]) 0 1 =
  uint32 (Z.of_nat (molecules_at ["CellX"; "CellY"]
                      [("GeneA", 0); ("GeneB", 1)]
                      (counted "CB" "UB" "GE" 0 None scenario_stream) 0 1)).
Proof.
  refine (from_bam_counts_molecules "CB" "UB" "GE" 0 scenario_stream
            scenario_annotation [("GeneA", 0); ("GeneB", 1)]
            (mkCountMatrix
               (CsrMatrix 2 [{[ 0 := 1%Z; 1 := 1%Z ]}; {[ 0 := 1%Z ]}; ∅])
               ["CellX"; "CellY"] ["GeneA"; "GeneB"]) _ _ 0 1).
  - vm_compute. reflexivity.
  - vm_compute. reflexivity.
Defined.

(** X8: in the matrix of [from_bam] every row label has a row and every
    column a label, and all counts lie in the labelled part: the value at
    a row beyond the row labels or at a column beyond the column labels is
    zero. *)
Theorem from_bam_counts_within_labels (cb ub ge : string) (thr : Z)
    (stream : list sam_record) (ann : list gtf_record) (M : CountMatrix) :
  from_bam stream ann cb ub ge thr = Ok M →
  length (row_index M) ≤ (csr_shape (matrix M)).1 ∧
  (csr_shape (matrix M)).2 = length (col_index M) ∧
  ∀ i j, length (row_index M) ≤ i ∨ length (col_index M) ≤ j →
         csr_get (matrix M) i j = 0%Z.
Proof.
  intros HM.
  destruct (from_bam_Ok_inv _ _ _ _ _ _ _ HM)
    as (idx & s & coo & Hidx & Hscan & _ & HMeq).
  destruct (scan_init_rows_in_range _ _ _ _ _ _ _ Hscan) as (Hrows & Hle).
  pose proof (from_bam_after_scan _ _ _ _ _ _ _ s Hidx Hscan) as Hafter.
  rewrite HM in Hafter.
  destruct (decide (Forall _ (gene_indices s))) as [Hcols|]; [|done].
  injection Hafter as ->. simpl. split_and!.
  - by rewrite length_fmap, length_seq.
  - by rewrite keys_by_value_length.
  - intros i j Hout.
    rewrite (from_bam_value _ _ _ _ _ _ _ _ _ HM Hidx Hscan).
    destruct Hout as [Hi|Hj].
    + rewrite entries_at_out_of_range; [done|].
      eapply Forall_impl; [exact Hrows|]. simpl. lia.
    + rewrite entries_at_out_of_columns; [done|].
      eapply Forall_impl; [exact Hcols|]. simpl.
      rewrite keys_by_value_length in Hj. lia.
Qed.

Lemma from_bam_counts_within_labels_witness :
  csr_get (CsrMatrix 2 [{[ 0 := 1%Z; 1 := 1%Z ]}; {[ 0 := 1%Z ]}; ∅]) 2 0
    = 0%Z.
Proof.
  refine (proj2 (proj2 (from_bam_counts_within_labels "CB" "UB" "GE" 0
            scenario_stream scenario_annotation
            (mkCountMatrix
               (CsrMatrix 2 [{[ 0 := 1%Z; 1 := 1%Z ]}; {[ 0 := 1%Z ]}; ∅])
               ["CellX"; "CellY"] ["GeneA"; "GeneB"]) _)) 2 0 _).
  - vm_compute. reflexivity.
  - left. simpl. lia.
Defined.

(** ** Streams that change nothing *)

Lemma counted_all_dropped cb ub ge thr stream : ∀ last_key,
  Forall (λ r, valid_key cb ub ge thr r = None) stream →
  counted cb ub ge thr last_key stream = [].
Proof.
  induction stream as [|r stream IH]; intros last_key Hall; [done|].
  apply Forall_cons in Hall as [Hr Hall]. simpl. rewrite Hr. by apply IH.
Qed.

(** X9: a stream without valid record, the empty stream among them, gives
    the matrix without rows and without row labels over the columns of the
    gene index; it raises nothing once the gene index is built. *)
Theorem from_bam_without_valid_record (cb ub ge : string) (thr : Z)
    (stream : list sam_record) (ann : list gtf_record)
    (idx : list (string * nat)) :
  build_gene_index ann = Ok idx →
  Forall (λ r, tags r !! ge = None ∨ tags r !! cb = None ∨
               tags r !! ub = None ∨ (mapping_quality r < thr)%Z) stream →
  from_bam stream ann cb ub ge thr =
    Ok (mkCountMatrix (CsrMatrix (PyDict.len idx) []) []
          (keys_by_value idx)).
Proof.
  intros Hidx Hall.
  assert (scan idx cb ub ge thr scan_init stream = Ok scan_init) as Hscan.
  { rewrite scan_counted. simpl. rewrite counted_all_dropped; [done|].
    eapply Forall_impl; [exact Hall|]. intros r Hr. by apply valid_key_None. }
  rewrite (from_bam_after_scan _ _ _ _ _ _ _ _ Hidx Hscan).
  reflexivity.
Qed.

Lemma from_bam_without_valid_record_witness :
  from_bam [tagged "GeneA" "CellX" "Mol1" 3;
            SamRecord {[ "GE" := "GeneZ" ]} 60]
    scenario_annotation "CB" "UB" "GE" 10 =
  Ok (mkCountMatrix (CsrMatrix 2 []) [] ["GeneA"; "GeneB"]).
Proof.
  refine (from_bam_without_valid_record "CB" "UB" "GE" 10 _
            scenario_annotation [("GeneA", 0); ("GeneB", 1)] _ _).
  - vm_compute. reflexivity.
  - constructor; [|constructor; [|constructor]].
    + right. right. right. simpl. lia.
    + right. left. vm_compute. reflexivity.
Defined.

Lemma counted_ext cb ub ge thr thr' stream : ∀ last_key,
  Forall (λ r, valid_key cb ub ge thr r = valid_key cb ub ge thr' r) stream →
  counted cb ub ge thr last_key stream = counted cb ub ge thr' last_key stream.
Proof.
  induction stream as [|r stream IH]; intros last_key Hall; [done|].
  apply Forall_cons in Hall as [Hr Hall]. simpl. rewrite Hr.
  destruct (valid_key cb ub ge thr' r); [|by apply IH].
  case_decide; [by apply IH|]. f_equal. by apply IH.
Qed.

(** X10: a mapping-quality threshold that no record of the stream falls
    below has no effect: [from_bam] gives the result it gives with any
    other such threshold, for instance the default 0 when mapping
    qualities are not negative. *)
Theorem threshold_below_all_qualities_is_void (cb ub ge : string)
    (thr thr' : Z) (stream : list sam_record) (ann : list gtf_record) :
  Forall (λ r, (thr ≤ mapping_quality r)%Z ∧ (thr' ≤ mapping_quality r)%Z)
         stream →
  from_bam stream ann cb ub ge thr = from_bam stream ann cb ub ge thr'.
Proof.
  intros Hall. unfold from_bam.
  destruct (build_gene_index ann) as [idx|e]; simpl; [|done].
  rewrite !scan_counted. simpl.
  rewrite (counted_ext cb ub ge thr thr'); [done|].
  eapply Forall_impl; [exact Hall|]. intros r [Hr Hr']. unfold valid_key.
  destruct (tags r !! ge); simpl; [|done].
  destruct (tags r !! cb); simpl; [|done].
  destruct (tags r !! ub); simpl; [|done].
  by rewrite !decide_False by lia.
Qed.

Lemma threshold_below_all_qualities_is_void_witness :
  from_bam [tagged "GeneA" "CellX" "Mol1" 30; tagged "GeneB" "CellY" "Mol2" 255]
    scenario_annotation "CB" "UB" "GE" 0 =
  from_bam [tagged "GeneA" "CellX" "Mol1" 30; tagged "GeneB" "CellY" "Mol2" 255]
    scenario_annotation "CB" "UB" "GE" 30.
Proof.
  apply threshold_below_all_qualities_is_void.
  repeat constructor; simpl; lia.
Defined.

Lemma counted_doubled cb ub ge thr stream : ∀ last_key,
  counted cb ub ge thr last_key (stream ≫= λ r, [r; r]) =
  counted cb ub ge thr last_key stream.
Proof.
  induction stream as [|r stream IH]; intros last_key; [done|].
  change ((r :: stream) ≫= λ r, [r; r])
    with (r :: r :: (stream ≫= λ r, [r; r])).
  simpl. destruct (valid_key cb ub ge thr r) as [k|]; [|apply IH].
  case_decide; [apply IH|].
  rewrite decide_True by done. f_equal. apply IH.
Qed.

(** X11: writing every record of a stream twice in a row changes nothing:
    [from_bam] gives the same result, error or matrix, as for the stream
    itself. *)
Theorem doubling_every_record_changes_nothing (cb ub ge : string) (thr : Z)
    (stream : list sam_record) (ann : list gtf_record) :
  from_bam (stream ≫= λ r, [r; r]) ann cb ub ge thr =
  from_bam stream ann cb ub ge thr.
Proof. apply from_bam_counted_ext, counted_doubled. Qed.

(** ** Merging, in general *)

Lemma mapM_Ok_inv {A B} (f : A → result B) (xs : list A) : ∀ ys,
  mapM f xs = Ok ys → Forall2 (λ x y, f x = Ok y) xs ys.
Proof.
  induction xs as [|x xs IH]; intros ys; simpl.
  - intros [= <-]. constructor.
  - destruct (f x) as [y|] eqn:Hx; simpl; [|done].
    destruct (mapM f xs) as [ys'|]; simpl; [|done].
    intros [= <-]. constructor; [done|]. by apply IH.
Qed.

Lemma loads_together fs ps : ∀ cs rs ms,
  Forall2 (λ p c, np_load fs (p +:+ "_col_index.npy") = Ok c) ps cs →
  Forall2 (λ p r, np_load fs (p +:+ "_row_index.npy") = Ok r) ps rs →
  Forall2 (λ p m, load_npz fs (p +:+ ".npz") = Ok m) ps ms →
  ∃ Ms, Forall2 (λ p M, load fs p = Ok M) ps Ms ∧
        col_index <$> Ms = cs ∧ row_index <$> Ms = rs ∧ matrix <$> Ms = ms.
Proof.
  induction ps as [|p ps IH]; intros cs rs ms Hc Hr Hm.
  - apply Forall2_nil_inv_l in Hc as ->. apply Forall2_nil_inv_l in Hr as ->.
    apply Forall2_nil_inv_l in Hm as ->. exists []. by split_and!.
  - apply Forall2_cons_inv_l in Hc as (c & cs' & Hc & Hcs & ->).
    apply Forall2_cons_inv_l in Hr as (r & rs' & Hr & Hrs & ->).
    apply Forall2_cons_inv_l in Hm as (m & ms' & Hm & Hms & ->).
    destruct (IH cs' rs' ms' Hcs Hrs Hms) as (Ms & HMs & <- & <- & <-).
    exists (mkCountMatrix m r c :: Ms). split_and!; try done.
    constructor; [|done]. by apply load_Ok.
Qed.

Lemma merge_matrices_intro fs ps M0 Ms :
  Forall2 (λ p M, load fs p = Ok M) ps (M0 :: Ms) →
  Forall (λ M, csr_cols (matrix M) = csr_cols (matrix M0)) Ms →
  merge_matrices fs ps =
    Ok (mkCountMatrix
          (CsrMatrix (csr_cols (matrix M0))
             (concat ((λ M, csr_rows (matrix M)) <$> M0 :: Ms)))
          (concat (row_index <$> M0 :: Ms)) (col_index M0)).
Proof.
  intros Hload Hwidth. unfold merge_matrices.
  rewrite (mapM_Ok (λ p, np_load fs (p +:+ "_col_index.npy")) _
             (col_index <$> M0 :: Ms)).
  2:{ apply Forall2_fmap_r. eapply Forall2_impl; [exact Hload|].
      intros p M HM. by apply load_Ok in HM as (_ & _ & ?). }
  rewrite (mapM_Ok (λ p, np_load fs (p +:+ "_row_index.npy")) _
             (row_index <$> M0 :: Ms)).
  2:{ apply Forall2_fmap_r. eapply Forall2_impl; [exact Hload|].
      intros p M HM. by apply load_Ok in HM as (_ & ? & _). }
  rewrite (mapM_Ok (λ p, load_npz fs (p +:+ ".npz")) _ (matrix <$> M0 :: Ms)).
  2:{ apply Forall2_fmap_r. eapply Forall2_impl; [exact Hload|].
      intros p M HM. by apply load_Ok in HM as (? & _ & _). }
  simpl. rewrite decide_True by (by apply Forall_fmap). simpl.
  by rewrite <- list_fmap_compose.
Qed.

Lemma merge_matrices_inv fs ps R :
  merge_matrices fs ps = Ok R →
  ∃ M0 Ms,
    Forall2 (λ p M, load fs p = Ok M) ps (M0 :: Ms) ∧
    Forall (λ M, csr_cols (matrix M) = csr_cols (matrix M0)) Ms.
Proof.
  unfold merge_matrices. intros HR.
  destruct (mapM (λ p, np_load fs (p +:+ "_col_index.npy")) ps)
    as [cs|] eqn:Hcs; simpl in HR; [|done].
  destruct (mapM (λ p, np_load fs (p +:+ "_row_index.npy")) ps)
    as [rs|] eqn:Hrs; simpl in HR; [|done].
  destruct (mapM (λ p, load_npz fs (p +:+ ".npz")) ps)
    as [ms|] eqn:Hms; simpl in HR; [|done].
  apply mapM_Ok_inv in Hcs, Hrs, Hms.
  destruct (loads_together fs ps cs rs ms Hcs Hrs Hms)
    as (Ms & HMs & <- & <- & <-).
  destruct Ms as [|M0 Ms]; [done|]. simpl in HR.
  destruct (decide _) as [Hwidth|] in HR; [|done].
  exists M0, Ms. split; [done|]. by apply Forall_fmap in Hwidth.
Qed.

(** X13: [merge_matrices] returns a matrix exactly when there is at least
    one prefix, every prefix loads and all loaded matrices have the width
    of the first; the result stacks their rows and row labels in input
    order under the column labels of the first.  The column labels of the
    other inputs are never looked at. *)
Theorem merge_matrices_returns_iff (fs : gmap string file)
    (input_prefixes : list string) (R : CountMatrix) :
  merge_matrices fs input_prefixes = Ok R ↔
  ∃ M0 Ms,
    Forall2 (λ p M, load fs p = Ok M) input_prefixes (M0 :: Ms) ∧
    Forall (λ M, csr_cols (matrix M) = csr_cols (matrix M0)) Ms ∧
    R = mkCountMatrix
          (CsrMatrix (csr_cols (matrix M0))
             (concat ((λ M, csr_rows (matrix M)) <$> M0 :: Ms)))
          (concat (row_index <$> M0 :: Ms)) (col_index M0).
Proof.
  split.
  - intros HR. destruct (merge_matrices_inv _ _ _ HR) as (M0 & Ms & Hl & Hw).
    exists M0, Ms. split_and!; [done..|].
    rewrite (merge_matrices_intro _ _ _ _ Hl Hw) in HR. by injection HR.
  - intros (M0 & Ms & Hl & Hw & ->). by apply merge_matrices_intro.
Qed.

(** X14: merging a single prefix is loading it. *)
Theorem merge_single_prefix_is_load (fs : gmap string file) (p : string)
    (M : CountMatrix) :
  merge_matrices fs [p] = Ok M ↔ load fs p = Ok M.
Proof.
  assert (∀ M0 : CountMatrix,
            mkCountMatrix
              (CsrMatrix (csr_cols (matrix M0))
                 (concat ((λ M, csr_rows (matrix M)) <$> [M0])))
              (concat (row_index <$> [M0])) (col_index M0) = M0) as Hone.
  { intros [[w rows] r c]. simpl. by rewrite !app_nil_r. }
  split.
  - intros HM. destruct (merge_matrices_inv _ _ _ HM) as (M0 & Ms & Hl & Hw).
    rewrite (merge_matrices_intro _ _ _ _ Hl Hw) in HM.
    apply Forall2_cons_inv_l in Hl as (M0' & Ms' & Hp & Hnil & [= <- <-]).
    apply Forall2_nil_inv_l in Hnil as ->.
    rewrite Hone in HM. congruence.
  - intros HM. rewrite (merge_matrices_intro fs [p] M []).
    + by rewrite Hone.
    + by repeat constructor.
    + constructor.
Qed.

(** X15: merging composes: when two sequences of prefixes merge into
    matrices of one width, the sequence of both merges into the first
    result stacked on the second. *)
Theorem merge_of_concatenation (fs : gmap string file)
    (ps1 ps2 : list string) (R1 R2 : CountMatrix) :
  merge_matrices fs ps1 = Ok R1 →
  merge_matrices fs ps2 = Ok R2 →
  csr_cols (matrix R1) = csr_cols (matrix R2) →
  merge_matrices fs (ps1 ++ ps2) = Ok (stacked R1 R2).
Proof.
  intros H1 H2 Hw.
  destruct (merge_matrices_inv _ _ _ H1) as (A0 & As & Hl1 & Hw1).
  destruct (merge_matrices_inv _ _ _ H2) as (B0 & Bs & Hl2 & Hw2).
  rewrite (merge_matrices_intro _ _ _ _ Hl1 Hw1) in H1.
  rewrite (merge_matrices_intro _ _ _ _ Hl2 Hw2) in H2.
  injection H1 as <-. injection H2 as <-. simpl in Hw.
  rewrite (merge_matrices_intro fs (ps1 ++ ps2) A0 (As ++ B0 :: Bs)).
  - unfold stacked. simpl. rewrite !fmap_app, !concat_app. simpl.
    by rewrite !app_assoc.
  - change (A0 :: As ++ B0 :: Bs) with ((A0 :: As) ++ B0 :: Bs).
    by apply Forall2_app.
  - apply Forall_app. split; [done|]. constructor; [done|].
    eapply Forall_impl; [exact Hw2|]. simpl. congruence.
Qed.

Lemma merge_of_concatenation_witness :
  merge_matrices two_shards (["a"] ++ ["b"]) = Ok (stacked two_rows three_rows).
Proof.
  apply merge_of_concatenation.
  - vm_compute. reflexivity.
  - vm_compute. reflexivity.
  - reflexivity.
Defined.

(** ** Label files *)

Lemma readlines_nonempty s :
  Forall (λ line, line ≠ EmptyString) (readlines s).
Proof.
  apply Forall_forall. intros line Hin.
  apply list_elem_of_lookup_1 in Hin as [i Hi].
  destruct (readlines_lines _ _ _ Hi) as [(body & -> & _)|(_ & _ & ?)]; [|done].
  by destruct body.
Qed.

Lemma universal_newlines_return_free s :
  return_free (universal_newlines s) ∧
  ∀ c, return_free (universal_newlines (String c s)).
Proof.
  induction s as [|c s [IH1 IH2]].
  - split; [done|]. intros c. simpl. case_decide; simpl; by split.
  - split; [apply IH2|]. intros c'.
    change (universal_newlines (String c' (String c s)))
      with (if decide (c' = CR)
            then String LF (if decide (c = LF) then universal_newlines s
                            else universal_newlines (String c s))
            else String c' (universal_newlines (String c s))).
    case_decide.
    + split; [done|]. case_decide; [done | apply IH2].
    + split; [done | apply IH2].
Qed.

Lemma readlines_return_free s :
  return_free s → Forall return_free (readlines s).
Proof.
  induction s as [|c s IH]; simpl; [constructor|].
  intros [Hc Hs]. specialize (IH Hs). case_decide.
  - constructor; [by split | done].
  - destruct (readlines s) as [|line lines]; [by repeat constructor|].
    apply Forall_cons in IH as [Hline Hlines]. by repeat constructor.
Qed.

Lemma strip_return_free s :
  return_free s → return_free (strip_trailing_nuls s).
Proof.
  induction s as [|c s IH]; simpl; [done|]. intros [Hc Hs].
  specialize (IH Hs).
  destruct (strip_trailing_nuls s); [case_decide; simpl; done|].
  by split.
Qed.

Lemma universal_newlines_nul_free s :
  nul_free s →
  nul_free (universal_newlines s) ∧
  ∀ c, c ≠ NUL → nul_free (universal_newlines (String c s)).
Proof.
  induction s as [|c s IH]; intros Hs.
  - split; [done|]. intros c Hc. simpl. case_decide; simpl; by split.
  - destruct Hs as [Hc Hs]. destruct (IH Hs) as [IH1 IH2].
    split; [by apply IH2|]. intros c' Hc'.
    change (universal_newlines (String c' (String c s)))
      with (if decide (c' = CR)
            then String LF (if decide (c = LF) then universal_newlines s
                            else universal_newlines (String c s))
            else String c' (universal_newlines (String c s))).
    case_decide.
    + split; [done|]. case_decide; [done | by apply IH2].
    + split; [done | by apply IH2].
Qed.

Lemma readlines_nul_free s :
  nul_free s → Forall nul_free (readlines s).
Proof.
  induction s as [|c s IH]; simpl; [constructor|].
  intros [Hc Hs]. specialize (IH Hs). case_decide.
  - constructor; [by split | done].
  - destruct (readlines s) as [|line lines]; [by repeat constructor|].
    apply Forall_cons in IH as [Hline Hlines]. by repeat constructor.
Qed.

Lemma strip_nul_free s : nul_free s → strip_trailing_nuls s = s.
Proof.
  induction s as [|c s IH]; simpl; [done|]. intros [Hc Hs].
  rewrite (IH Hs). destruct s; [by rewrite decide_False | done].
Qed.

Lemma np_array_nul_free lines :
  Forall nul_free lines → np_array lines = lines.
Proof.
  unfold np_array. induction 1 as [|line lines Hline _ IH]; [done|].
  rewrite fmap_cons. f_equal; [by apply strip_nul_free | exact IH].
Qed.

(** X17: the labels that [from_mtx] reads lose nothing of a label file
    that holds no NUL character: put end to end, the row labels are the
    text of the row-label file and the column labels the text of the
    column-label file (as text mode delivers them), and no label is empty;
    a blank line gives the label that consists of a line feed. *)
Theorem from_mtx_labels_are_the_file (fs : gmap string file)
    (matrix_mtx row_index_file col_index_file : string) (M : CountMatrix) :
  from_mtx fs matrix_mtx row_index_file col_index_file = Ok M →
  ∃ rows cols,
    fs !! row_index_file = Some (TextFile rows) ∧
    fs !! col_index_file = Some (TextFile cols) ∧
    (nul_free rows →
       foldr String.append EmptyString (row_index M) = universal_newlines rows ∧
       Forall (λ label, label ≠ EmptyString) (row_index M)) ∧
    (nul_free cols →
       foldr String.append EmptyString (col_index M) = universal_newlines cols ∧
       Forall (λ label, label ≠ EmptyString) (col_index M)).
Proof.
  unfold from_mtx. intros HM.
  destruct (mmread fs matrix_mtx) as [coo|]; simpl in HM; [|done].
  destruct (read_index_file fs row_index_file) as [rs|] eqn:Hrs;
    simpl in HM; [|done].
  destruct (read_index_file fs col_index_file) as [cs|] eqn:Hcs;
    simpl in HM; [|done].
  injection HM as <-. simpl.
  apply read_index_file_Ok in Hrs as (rows & Hrows & ->).
  apply read_index_file_Ok in Hcs as (cols & Hcols & ->).
  assert (∀ text, nul_free text →
            np_array (readlines (universal_newlines text))
            = readlines (universal_newlines text)) as Hsame.
  { intros text Htext. apply np_array_nul_free, readlines_nul_free.
    by apply universal_newlines_nul_free. }
  exists rows, cols. split_and!; try done.
  - intros Hfree. rewrite (Hsame rows Hfree).
    split; [apply readlines_concat | apply readlines_nonempty].
  - intros Hfree. rewrite (Hsame cols Hfree).
    split; [apply readlines_concat | apply readlines_nonempty].
Qed.

Lemma from_mtx_labels_are_the_file_witness :
  ∃ rows cols,
    scenario_files !! "rows.txt" = Some (TextFile rows) ∧
    scenario_files !! "cols.txt" = Some (TextFile cols) ∧
    (nul_free rows →
       foldr String.append EmptyString
         ["CellX" +:+ String LF EmptyString; "CellY"]
       = universal_newlines rows ∧
       Forall (λ label, label ≠ EmptyString)
         ["CellX" +:+ String LF EmptyString; "CellY"]) ∧
    (nul_free cols →
       foldr String.append EmptyString
         ["GeneA" +:+ String LF EmptyString; "GeneB" +:+ String LF EmptyString]
       = universal_newlines cols ∧
       Forall (λ label, label ≠ EmptyString)
         ["GeneA" +:+ String LF EmptyString;
          "GeneB" +:+ String LF EmptyString]).
Proof.
  refine (from_mtx_labels_are_the_file scenario_files
            "counts.mtx" "rows.txt" "cols.txt"
            (mkCountMatrix
               (tocsr_as intp
                  (CooMatrix (2, 2) [0; 0; 1] [0; 1; 0] [1; 1; 1]%Z))
               ["CellX" +:+ String LF EmptyString; "CellY"]
               ["GeneA" +:+ String LF EmptyString;
                "GeneB" +:+ String LF EmptyString]) _).
  vm_compute. reflexivity.
Defined.

(** X18: no label that [from_mtx] reads contains a carriage return: text
    mode turns the line ends of a file written with carriage returns into
    line feeds before the lines are cut. *)
Theorem from_mtx_labels_have_no_carriage_return (fs : gmap string file)
    (matrix_mtx row_index_file col_index_file : string) (M : CountMatrix) :
  from_mtx fs matrix_mtx row_index_file col_index_file = Ok M →
  Forall return_free (row_index M ++ col_index M).
Proof.
  unfold from_mtx. intros HM.
  destruct (mmread fs matrix_mtx) as [coo|]; simpl in HM; [|done].
  destruct (read_index_file fs row_index_file) as [rs|] eqn:Hrs;
    simpl in HM; [|done].
  destruct (read_index_file fs col_index_file) as [cs|] eqn:Hcs;
    simpl in HM; [|done].
  injection HM as <-. simpl.
  apply read_index_file_Ok in Hrs as (rows & _ & ->).
  apply read_index_file_Ok in Hcs as (cols & _ & ->).
  assert (∀ text, Forall return_free
                    (np_array (readlines (universal_newlines text)))) as Hall.
  { intros text. unfold np_array. apply Forall_fmap.
    eapply Forall_impl;
      [apply readlines_return_free, universal_newlines_return_free|].
    intros line. apply strip_return_free. }
  apply Forall_app. split; apply Hall.
Qed.

Lemma from_mtx_labels_have_no_carriage_return_witness :
  Forall return_free
    (["CellX" +:+ String LF EmptyString; "CellY"] ++
     ["GeneA" +:+ String LF EmptyString]).
Proof.
  refine (from_mtx_labels_have_no_carriage_return
            {[ "counts.mtx" := MtxFile (CooMatrix (2, 1) [0] [0] [1%Z]);
               "rows.txt" :=
                 TextFile ("CellX" +:+ String CR (String LF "CellY"));
               "cols.txt" := TextFile ("GeneA" +:+ String CR EmptyString) ]}
            "counts.mtx" "rows.txt" "cols.txt"
            (mkCountMatrix (tocsr_as intp (CooMatrix (2, 1) [0] [0] [1%Z]))
               ["CellX" +:+ String LF EmptyString; "CellY"]
               ["GeneA" +:+ String LF EmptyString]) _).
  vm_compute. reflexivity.
Defined.
